(** * ACME render/camera.py: camera model, projection and rig generators

    A shallow embedding of [src/render/camera.py].  Tensors of floats are
    idealised as real numbers; a point set of shape (N,3) is a list of
    3-vectors, the 4x4 matrices are four rows of 4-vectors, and the
    [dim] argument of [project]/[unproject] is fixed to its default (the
    last axis).  Python exceptions are the [Raise] results of an error
    monad; objects that are shared by reference live in a store. *)

From Stdlib Require Import Reals Lra Lia List String ZArith.
From stdpp Require Import gmap.
Import ListNotations.

Open Scope R_scope.

(** ** Python exceptions and results *)

Inductive exn : Type :=
| UnboundLocalError (name : string)
| ValueError (msg : string)
| ZeroDivisionError
| RuntimeError (msg : string).

Inductive result (A : Type) : Type :=
| Ok (a : A)
| Raise (e : exn).

Arguments Ok {A} a.
Arguments Raise {A} e.

Definition rbind {A B : Type} (r : result A) (k : A -> result B) : result B :=
  match r with
  | Ok a => k a
  | Raise e => Raise e
  end.

Declare Scope py_scope.
Delimit Scope py_scope with py.
Notation "x <- c ;; k" := (rbind c (fun x => k))
  (at level 100, c at next level, right associativity) : py_scope.
Open Scope py_scope.

(** A local variable slot of a Python function: reading a slot that has
    not been assigned yet raises UnboundLocalError. *)
Definition read_local {A : Type} (name : string) (slot : option A) : result A :=
  match slot with
  | Some a => Ok a
  | None => Raise (UnboundLocalError name)
  end.

(** [a / b] on Python numbers, taken as reals: the quotient, or
    ZeroDivisionError on a zero divisor.  The OverflowError of an integer
    quotient beyond the float range is outside this model. *)
Definition pydiv (a b : R) : result R :=
  if Req_dec_T b 0 then Raise ZeroDivisionError else Ok (a / b).

(** ** Vectors and 4x4 matrices *)

Record vec3 : Type := V3 { vx : R; vy : R; vz : R }.
Record vec4 : Type := V4 { h0 : R; h1 : R; h2 : R; h3 : R }.
Record mat4 : Type := M4 { r0 : vec4; r1 : vec4; r2 : vec4; r3 : vec4 }.

(** A point set of shape (N,3). *)
Definition Tensor : Type := list vec3.

Definition vget (v : vec4) (j : nat) : R :=
  match j with
  | 0%nat => h0 v
  | 1%nat => h1 v
  | 2%nat => h2 v
  | _ => h3 v
  end.

Definition vset (v : vec4) (j : nat) (x : R) : vec4 :=
  match j with
  | 0%nat => V4 x (h1 v) (h2 v) (h3 v)
  | 1%nat => V4 (h0 v) x (h2 v) (h3 v)
  | 2%nat => V4 (h0 v) (h1 v) x (h3 v)
  | _ => V4 (h0 v) (h1 v) (h2 v) x
  end.

Definition row (M : mat4) (i : nat) : vec4 :=
  match i with
  | 0%nat => r0 M
  | 1%nat => r1 M
  | 2%nat => r2 M
  | _ => r3 M
  end.

(** [M[i, j]] *)
Definition entry (M : mat4) (i j : nat) : R := vget (row M i) j.

(** [M[i, j] = x] *)
Definition set_entry (M : mat4) (i j : nat) (x : R) : mat4 :=
  match i with
  | 0%nat => M4 (vset (r0 M) j x) (r1 M) (r2 M) (r3 M)
  | 1%nat => M4 (r0 M) (vset (r1 M) j x) (r2 M) (r3 M)
  | 2%nat => M4 (r0 M) (r1 M) (vset (r2 M) j x) (r3 M)
  | _ => M4 (r0 M) (r1 M) (r2 M) (vset (r3 M) j x)
  end.

Definition mk4 (f : nat -> nat -> R) : mat4 :=
  let i0 := 0%nat in let i1 := 1%nat in let i2 := 2%nat in let i3 := 3%nat in
  M4 (V4 (f i0 i0) (f i0 i1) (f i0 i2) (f i0 i3))
     (V4 (f i1 i0) (f i1 i1) (f i1 i2) (f i1 i3))
     (V4 (f i2 i0) (f i2 i1) (f i2 i2) (f i2 i3))
     (V4 (f i3 i0) (f i3 i1) (f i3 i2) (f i3 i3)).

(** [torch.zeros(4, 4)] *)
Definition zeros4 : mat4 := mk4 (fun _ _ => 0).

Definition col (M : mat4) (j : nat) : vec4 :=
  V4 (entry M 0 j) (entry M 1 j) (entry M 2 j) (entry M 3 j).

Definition dot4 (a b : vec4) : R :=
  h0 a * h0 b + h1 a * h1 b + h2 a * h2 b + h3 a * h3 b.

(** [torch.matmul(A, B)] on two 4x4 matrices. *)
Definition matmul (A B : mat4) : mat4 :=
  mk4 (fun i j => dot4 (row A i) (col B j)).

(** [torch.transpose(M, -1, -2)], [M.t()] *)
Definition transpose (M : mat4) : mat4 := mk4 (fun i j => entry M j i).

(** [torch.matmul(v, M)] for one row [v] of an (N,4) tensor. *)
Definition vecmat (v : vec4) (M : mat4) : vec4 :=
  V4 (dot4 v (col M 0)) (dot4 v (col M 1)) (dot4 v (col M 2)) (dot4 v (col M 3)).

(** Determinant and cofactors, for [torch.inverse]. *)
Definition det3 (a b c d e f g h i : R) : R :=
  a * (e * i - f * h) - b * (d * i - f * g) + c * (d * h - e * g).

Definition skip (k i : nat) : nat := if (i <? k)%nat then i else S i.

Definition minor (M : mat4) (i j : nat) : R :=
  let m := fun a b : nat => entry M (skip i a) (skip j b) in
  let i0 := 0%nat in let i1 := 1%nat in let i2 := 2%nat in
  det3 (m i0 i0) (m i0 i1) (m i0 i2)
       (m i1 i0) (m i1 i1) (m i1 i2)
       (m i2 i0) (m i2 i1) (m i2 i2).

Definition cofactor (M : mat4) (i j : nat) : R :=
  (if Nat.even (i + j) then 1 else -1) * minor M i j.

Definition det4 (M : mat4) : R :=
  entry M 0 0 * cofactor M 0 0 + entry M 0 1 * cofactor M 0 1
  + entry M 0 2 * cofactor M 0 2 + entry M 0 3 * cofactor M 0 3.

(** [torch.inverse(M)] over the reals: the inverse matrix, a RuntimeError
    exactly when the determinant is 0.  A matrix that is singular only
    after rounding to float32 is outside this model. *)
Definition inverse (M : mat4) : result mat4 :=
  if Req_dec_T (det4 M) 0
  then Raise (RuntimeError "inverse: singular matrix")
  else Ok (mk4 (fun i j => cofactor M j i / det4 M)).

Definition scale4 (k : R) (v : vec4) : vec4 := V4 (k * h0 v) (k * h1 v) (k * h2 v) (k * h3 v).

Definition vadd (a b : vec3) : vec3 := V3 (vx a + vx b) (vy a + vy b) (vz a + vz b).
Definition vsub (a b : vec3) : vec3 := V3 (vx a - vx b) (vy a - vy b) (vz a - vz b).
Definition vmul (a b : vec3) : vec3 := V3 (vx a * vx b) (vy a * vy b) (vz a * vz b).
Definition vscale (k : R) (a : vec3) : vec3 := V3 (k * vx a) (k * vy a) (k * vz a).
Definition vneg (a : vec3) : vec3 := V3 (- vx a) (- vy a) (- vz a).
Definition dot (a b : vec3) : R := vx a * vx b + vy a * vy b + vz a * vz b.

(** A Python scalar broadcast against the last axis of an (N,3) tensor. *)
Definition splat (k : R) : vec3 := V3 k k k.

(** ** Collaborators from ACME.math *)

(** Modelled from the spec: [ACME/math/deg2rad.py] is not part of the
    sources at hand; the spec lists it as the degree/radian conversion. *)
Definition deg2rad (d : R) : R := d * PI / 180.

(** Modelled from the spec: [ACME/math/cross.py] is not part of the sources
    at hand; the spec names it the cross product of two 3-vectors. *)
Definition cross (a b : vec3) : vec3 :=
  V3 (vy a * vz b - vz a * vy b)
     (vz a * vx b - vx a * vz b)
     (vx a * vy b - vy a * vx b).

Definition norm (a : vec3) : R := sqrt (dot a a).

(** Modelled from the spec: [normr] (row normalisation) is not part of the
    sources at hand; the spec writes [normalize] for it, the vector divided
    by its length. *)
Definition normr (a : vec3) : vec3 := V3 (vx a / norm a) (vy a / norm a) (vz a / norm a).

(** Modelled from the spec: [ACME/math/cart2homo.py] is not part of the
    sources at hand; the spec has it append the homogeneous component [w]
    along the last axis. *)
Definition cart2homo (p : vec3) (w : R) : vec4 := V4 (vx p) (vy p) (vz p) w.

(** Modelled from the spec: [ACME/math/homo2cart.py] is not part of the
    sources at hand; the spec has it divide by the homogeneous component. *)
Definition homo2cart (q : vec4) : vec3 := V3 (h0 q / h3 q) (h1 q / h3 q) (h2 q / h3 q).

(** ** class CameraExtrinsic *)

Record CameraExtrinsic : Type := mkExtrinsic {
  position : vec3;
  target : vec3;
  up_vector : vec3;
  ext_device : string
}.

(** [CameraExtrinsic()] with the default arguments of [__init__]. *)
Definition default_extrinsic : CameraExtrinsic :=
  mkExtrinsic (V3 0 0 0) (V3 0 0 1) (V3 0 1 0) "cuda:0".

Definition look_at (self : CameraExtrinsic) (t : vec3) : CameraExtrinsic :=
  mkExtrinsic (position self) t (up_vector self) (ext_device self).

Definition look_from (self : CameraExtrinsic) (p : vec3) : CameraExtrinsic :=
  mkExtrinsic p (target self) (up_vector self) (ext_device self).

Definition direction (self : CameraExtrinsic) : vec3 :=
  vsub (target self) (position self).

(** [torch.cat((a.t(), b.t(), c.t(), d.t()), dim=1)] on four (1,3) rows:
    the 3x4 block whose columns are [a], [b], [c], [d]; then
    [torch.cat((block, last), dim=0)]. *)
Definition cat_columns_then_row (a b c d : vec3) (last : vec4) : mat4 :=
  M4 (V4 (vx a) (vx b) (vx c) (vx d))
     (V4 (vy a) (vy b) (vy c) (vy d))
     (V4 (vz a) (vz b) (vz c) (vz d))
     last.

Definition view_matrix (self : CameraExtrinsic) : mat4 :=
  let z := normr (direction self) in
  let x := normr (cross (up_vector self) z) in
  let y := cross z x in
  let p := position self in
  cat_columns_then_row x y z (vneg p) (V4 0 0 0 1).

(** [to(device=d)] and the cascade of [__setattr__]: the three vectors are
    re-placed, their values untouched. *)
Definition extrinsic_to (self : CameraExtrinsic) (d : string) : CameraExtrinsic :=
  mkExtrinsic (position self) (target self) (up_vector self) d.

(** ** class CameraIntrinsic *)

Record CameraIntrinsic : Type := mkIntrinsic {
  fov : R;
  near : R;
  far : R;
  image_size : R * R;
  projection : string;
  int_device : string
}.

(** [CameraIntrinsic()] with the default arguments of [__init__]. *)
Definition default_intrinsic : CameraIntrinsic :=
  mkIntrinsic 30 (1 / 10) 10 (256, 256) "perspective" "cuda:0".

Definition aspect (self : CameraIntrinsic) : result R :=
  pydiv (fst (image_size self)) (snd (image_size self)).

Definition orthographic_matrix (self : CameraIntrinsic) : result mat4 :=
  let fov := deg2rad (fov self) in
  let M := zeros4 in
  a <- aspect self ;;
  m00 <- pydiv 1 (a * tan (fov / 2)) ;;
  let M := set_entry M 0 0 m00 in
  m11 <- pydiv 1 (tan (fov / 2)) ;;
  let M := set_entry M 1 1 m11 in
  m22 <- pydiv 2 (far self - near self) ;;
  let M := set_entry M 2 2 m22 in
  m23 <- pydiv (- (far self + near self)) (far self - near self) ;;
  let M := set_entry M 2 3 m23 in
  let M := set_entry M 3 3 1 in
  Ok M.

Definition perspective_matrix (self : CameraIntrinsic) : result mat4 :=
  let fov := deg2rad (fov self) in
  let M := zeros4 in
  a <- aspect self ;;
  m00 <- pydiv 1 (a * tan (fov / 2)) ;;
  let M := set_entry M 0 0 m00 in
  m11 <- pydiv 1 (tan (fov / 2)) ;;
  let M := set_entry M 1 1 m11 in
  m22 <- pydiv (far self + near self) (far self - near self) ;;
  let M := set_entry M 2 2 m22 in
  m23 <- pydiv (-2 * (far self * near self)) (far self - near self) ;;
  let M := set_entry M 2 3 m23 in
  let M := set_entry M 3 2 1 in
  Ok M.

Definition projection_matrix (self : CameraIntrinsic) : result mat4 :=
  if String.eqb (projection self) "orthographic" then orthographic_matrix self
  else if String.eqb (projection self) "perspective" then perspective_matrix self
  else Raise (ValueError "Unknown projection type.").

Definition intrinsic_to (self : CameraIntrinsic) (d : string) : CameraIntrinsic :=
  mkIntrinsic (fov self) (near self) (far self) (image_size self) (projection self) d.

(** ** class Camera *)

(** A camera together with the extrinsic and intrinsic its two references
    point to. *)
Record Camera : Type := mkCamera {
  extrinsic : CameraExtrinsic;
  intrinsic : CameraIntrinsic;
  name : string;
  device : string
}.

Definition vdiv (a b : vec3) : vec3 := V3 (vx a / vx b) (vy a / vy b) (vz a / vz b).

Definition project (self : Camera) (P : Tensor) (pixels : bool) : result Tensor :=
  let s := splat (1 / 2) in
  let s :=
    if pixels then
      let w := fst (image_size (intrinsic self)) - 1 in
      let h := snd (image_size (intrinsic self)) - 1 in
      vmul s (V3 w h 1)
    else s in
  Pm <- projection_matrix (intrinsic self) ;;
  let PV := matmul Pm (view_matrix (extrinsic self)) in
  let UVd := map (fun p => vecmat (cart2homo p 1) (transpose PV)) P in
  Ok (map (fun q => vadd (vmul (homo2cart q) s) s) UVd).

Definition unproject (self : Camera) (UVd : Tensor) (pixels : bool) : result Tensor :=
  (* the slot of the local [P], bound by the assignment after the branch *)
  let P_slot : option Tensor := None in
  let s := splat 2 in
  s <- (if pixels then
          let w := fst (image_size (intrinsic self)) - 1 in
          let h := snd (image_size (intrinsic self)) - 1 in
          (* t = torch.ones(UVd.ndimension(), ..., device=P.device) *)
          P <- read_local "P" P_slot ;;
          Ok (vdiv s (V3 w h 1))
        else Ok s) ;;
  Pm <- projection_matrix (intrinsic self) ;;
  Minv <- inverse (matmul Pm (view_matrix (extrinsic self))) ;;
  let P := map (fun q => vecmat (cart2homo (vsub (vmul q s) (splat 1)) 1)
                                (transpose Minv)) UVd in
  Ok (map homo2cart P).

(** ** Rig generators *)

(** Modelled from the spec: [ACME/geometry/equilateral_polygon.py] is not
    part of the sources at hand; the spec and the docstring of [camera_n]
    describe its output as the [n] vertices of a planar regular n-gon on
    the XY plane, of circumradius 1 before scaling. *)
Definition equilateral_polygon (n : nat) : Tensor :=
  map (fun k => V3 (cos (2 * PI * INR k / INR n)) (sin (2 * PI * INR k / INR n)) 0)
      (seq 0 n).

(** Modelled from the spec: [ACME/utility/indices.py] is not part of the
    sources at hand; the spec reads [indices(a, b)] as the column of the
    integers [a..b], both ends included. *)
Definition indices (a b : Z) : list Z :=
  map (fun k => (a + Z.of_nat k)%Z) (seq 0 (Z.to_nat (b - a + 1))).

(** [torch.t(torch.cat((A, B), dim=1))] on two columns: the (2,N) topology
    whose k-th column is [(A[k], B[k])]; concatenation along dim 1 needs
    as many rows on both sides. *)
Definition cat_columns (A B : list Z) : result (list (Z * Z)) :=
  if (length A =? length B)%nat then Ok (combine A B)
  else Raise (RuntimeError "Sizes of tensors must match except in dimension 1").

(** Modelled from the spec: [ACME/topology/poly2edge.py] is not part of the
    sources at hand; the spec describes the edges of [camera_n] as the chain
    of the index rule itself, so on a two-row topology the edge tensor
    (first component) is the topology it is given; the second component
    numbers the polygons. *)
Definition poly2edge (T : list (Z * Z)) : list (Z * Z) * list Z :=
  (T, indices 0 (Z.of_nat (length T) - 1)).

Definition zeros_like (P : Tensor) : Tensor := map (fun _ => V3 0 0 0) P.

(** [Q[:, (2, 0, 1)]] on one row. *)
Definition permute_201 (q : vec3) : vec3 := V3 (vz q) (vx q) (vy q).

(** [A + B] on tensors of shapes (a,3) and (b,3), with broadcasting of a
    single row. *)
Definition broadcast_add (A B : Tensor) : result Tensor :=
  match A, B with
  | [a], _ => Ok (map (fun b => vadd a b) B)
  | _, [b] => Ok (map (fun a => vadd a b) A)
  | _, _ =>
      if (length A =? length B)%nat
      then Ok (map (fun ab => vadd (fst ab) (snd ab)) (combine A B))
      else Raise (RuntimeError "The size of tensor a must match the size of tensor b")
  end.

Section Rig.

(** Modelled from the spec: [ACME/math/cart2sph.py] and
    [ACME/math/sph2cart.py] are not part of the sources at hand; the spec
    only names them as the cartesian/spherical conversions of a point, so
    the generators take them as parameters, applied row by row. *)
Variable cart2sph : vec3 -> vec3.
Variable sph2cart : vec3 -> vec3.

Definition bokeh_camera (P : Tensor) (n : nat) (aperture : R) : result Tensor :=
  let Q := zeros_like P ++ map (vscale aperture) (equilateral_polygon n) in
  S <- broadcast_add (map cart2sph P) (map permute_201 Q) ;;
  Ok (map sph2cart S).

Definition camera_n (n : nat) (camera_distance : R) (to_spherical : bool)
  : result (Tensor * list (Z * Z)) :=
  let P := map (vscale camera_distance) (equilateral_polygon n) in
  E <- cat_columns (indices 0 (Z.of_nat n - 2)) (indices 1 (Z.of_nat n - 1)) ;;
  let P := if to_spherical then map cart2sph P else P in
  Ok (P, fst (poly2edge E)).

End Rig.

(** ** Objects held by reference *)

Module Store.

Definition loc : Type := nat.

(** A [Camera] object: its two attributes are references. *)
Record CameraObj : Type := mkCameraObj {
  extrinsic_ref : loc;
  intrinsic_ref : loc;
  obj_name : string;
  obj_device : string
}.

Record heap : Type := mkHeap {
  extrinsics : gmap loc CameraExtrinsic;
  intrinsics : gmap loc CameraIntrinsic;
  cameras : gmap loc CameraObj;
  next : loc
}.

Definition empty_heap : heap := mkHeap ∅ ∅ ∅ 0%nat.

(** Computations on the store that may raise; the store at the point of
    the exception is kept. *)
Definition M (A : Type) : Type := heap -> result A * heap.

Definition ret {A : Type} (a : A) : M A := fun h => (Ok a, h).

Definition sbind {A B : Type} (m : M A) (k : A -> M B) : M B :=
  fun h => match m h with
           | (Ok a, h') => k a h'
           | (Raise e, h') => (Raise e, h')
           end.

Definition lift {A : Type} (r : result A) : M A := fun h => (r, h).

Declare Scope store_scope.
Delimit Scope store_scope with store.
Notation "x <- c ;; k" := (sbind c (fun x => k))
  (at level 100, c at next level, right associativity) : store_scope.
Local Open Scope store_scope.

Definition dangling {A : Type} : result A := Raise (RuntimeError "no such object").

Definition load_extrinsic (l : loc) : M CameraExtrinsic :=
  fun h => (match extrinsics h !! l with Some e => Ok e | None => dangling end, h).

Definition load_intrinsic (l : loc) : M CameraIntrinsic :=
  fun h => (match intrinsics h !! l with Some i => Ok i | None => dangling end, h).

Definition load_camera (l : loc) : M CameraObj :=
  fun h => (match cameras h !! l with Some c => Ok c | None => dangling end, h).

Definition store_extrinsic (l : loc) (e : CameraExtrinsic) : M unit :=
  fun h => (Ok tt, mkHeap (<[l := e]> (extrinsics h)) (intrinsics h) (cameras h) (next h)).

Definition store_intrinsic (l : loc) (i : CameraIntrinsic) : M unit :=
  fun h => (Ok tt, mkHeap (extrinsics h) (<[l := i]> (intrinsics h)) (cameras h) (next h)).

Definition store_camera (l : loc) (c : CameraObj) : M unit :=
  fun h => (Ok tt, mkHeap (extrinsics h) (intrinsics h) (<[l := c]> (cameras h)) (next h)).

Definition fresh : M loc :=
  fun h => (Ok (next h),
            mkHeap (extrinsics h) (intrinsics h) (cameras h) (S (next h))).

(** [CameraExtrinsic(position, target, up_vector, device)] *)
Definition new_extrinsic (e : CameraExtrinsic) : M loc :=
  l <- fresh ;; _ <- store_extrinsic l e ;; ret l.

(** [CameraIntrinsic(fov, near, far, image_size, projection, device)] *)
Definition new_intrinsic (i : CameraIntrinsic) : M loc :=
  l <- fresh ;; _ <- store_intrinsic l i ;; ret l.

(** The methods of the two parameter classes, on the object at [l]. *)
Definition ext_look_at (l : loc) (t : vec3) : M loc :=
  e <- load_extrinsic l ;; _ <- store_extrinsic l (look_at e t) ;; ret l.

Definition ext_look_from (l : loc) (p : vec3) : M loc :=
  e <- load_extrinsic l ;; _ <- store_extrinsic l (look_from e p) ;; ret l.

Definition ext_to (l : loc) (d : string) : M loc :=
  e <- load_extrinsic l ;; _ <- store_extrinsic l (extrinsic_to e d) ;; ret l.

Definition int_to (l : loc) (d : string) : M loc :=
  i <- load_intrinsic l ;; _ <- store_intrinsic l (intrinsic_to i d) ;; ret l.

Definition int_projection_matrix (l : loc) : M mat4 :=
  i <- load_intrinsic l ;; lift (projection_matrix i).

(** The default values of [Camera.__init__], evaluated once, when the
    [def] statement of the class body runs. *)
Record defaults : Type := mkDefaults {
  default_extrinsic_ref : loc;
  default_intrinsic_ref : loc
}.

Definition class_Camera : M defaults :=
  e <- new_extrinsic default_extrinsic ;;
  i <- new_intrinsic default_intrinsic ;;
  ret (mkDefaults e i).

(** [Camera(extrinsic, intrinsic, name, device)]; [None] stands for an
    argument left out.  The assignment to [device] cascades to the two
    referenced objects through [__setattr__]. *)
Definition new_camera (d : defaults) (ext int : option loc) (nm dev : string) : M loc :=
  let ext := match ext with Some l => l | None => default_extrinsic_ref d end in
  let int := match int with Some l => l | None => default_intrinsic_ref d end in
  c <- fresh ;;
  _ <- store_camera c (mkCameraObj ext int nm dev) ;;
  _ <- ext_to ext dev ;;
  _ <- int_to int dev ;;
  ret c.

(** [c.extrinsic] *)
Definition cam_extrinsic (c : loc) : M loc :=
  o <- load_camera c ;; ret (extrinsic_ref o).

(** [c.intrinsic] *)
Definition cam_intrinsic (c : loc) : M loc :=
  o <- load_camera c ;; ret (intrinsic_ref o).

(** [a = Camera(); b = Camera(); a.extrinsic.look_at(t)], then the pose
    read through [b]. *)
Definition two_default_cameras_look_at (t : vec3) : M (vec3 * vec3 * vec3) :=
  d <- class_Camera ;;
  a <- new_camera d None None "Camera" "cuda:0" ;;
  b <- new_camera d None None "Camera" "cuda:0" ;;
  ea <- cam_extrinsic a ;;
  _ <- ext_look_at ea t ;;
  eb <- cam_extrinsic b ;;
  e <- load_extrinsic eb ;;
  ret (position e, target e, up_vector e).

(** The same with [a.extrinsic.look_from(p)]. *)
Definition two_default_cameras_look_from (p : vec3) : M (vec3 * vec3 * vec3) :=
  d <- class_Camera ;;
  a <- new_camera d None None "Camera" "cuda:0" ;;
  b <- new_camera d None None "Camera" "cuda:0" ;;
  ea <- cam_extrinsic a ;;
  _ <- ext_look_from ea p ;;
  eb <- cam_extrinsic b ;;
  e <- load_extrinsic eb ;;
  ret (position e, target e, up_vector e).

(** Two cameras given an extrinsic of their own each. *)
Definition two_explicit_cameras_look_at (t : vec3) : M (vec3 * vec3 * vec3) :=
  d <- class_Camera ;;
  xa <- new_extrinsic default_extrinsic ;;
  xb <- new_extrinsic default_extrinsic ;;
  a <- new_camera d (Some xa) None "Camera" "cuda:0" ;;
  b <- new_camera d (Some xb) None "Camera" "cuda:0" ;;
  ea <- cam_extrinsic a ;;
  _ <- ext_look_at ea t ;;
  eb <- cam_extrinsic b ;;
  e <- load_extrinsic eb ;;
  ret (position e, target e, up_vector e).

End Store.

(** ** Reference statements and sample inputs *)

(** The configurations the data model admits for an intrinsic. *)
Definition valid_intrinsic (i : CameraIntrinsic) : Prop :=
  0 < fov i < 180 /\ 0 < near i < far i /\
  0 < fst (image_size i) /\ 0 < snd (image_size i).

(** The pose is not degenerate: the direction is not zero and the up vector
    is not parallel to it. *)
Definition nondegenerate (e : CameraExtrinsic) : Prop :=
  direction e <> V3 0 0 0 /\ cross (up_vector e) (direction e) <> V3 0 0 0.

(** The view matrix as the specification words it: the basis vectors as the
    rows of the 3x3 block, and minus their dot products with the position
    in the last column. *)
Definition view_matrix_spec (self : CameraExtrinsic) : mat4 :=
  let z := normr (direction self) in
  let x := normr (cross (up_vector self) z) in
  let y := cross z x in
  let p := position self in
  M4 (V4 (vx x) (vy x) (vz x) (- dot x p))
     (V4 (vx y) (vy y) (vz y) (- dot y p))
     (V4 (vx z) (vy z) (vz z) (- dot z p))
     (V4 0 0 0 1).

Definition identity4 : mat4 :=
  M4 (V4 1 0 0 0) (V4 0 1 0 0) (V4 0 0 1 0) (V4 0 0 0 1).

(** Normalised device coordinates of a point under the combined matrix
    [PV]: homogeneous, transformed, back to cartesian. *)
Definition ndc (PV : mat4) (p : vec3) : vec3 :=
  homo2cart (vecmat (cart2homo p 1) (transpose PV)).

(** A valid camera configuration: an intrinsic of the data model with one of
    the two projection kinds, and a pose that is not degenerate. *)
Definition valid_camera (c : Camera) : Prop :=
  valid_intrinsic (intrinsic c) /\ nondegenerate (extrinsic c) /\
  (projection (intrinsic c) = "orthographic"%string \/
   projection (intrinsic c) = "perspective"%string).

(** A point is inside the view frustum when its clip coordinates
    (x, y, z, w) under the combined matrix [PV] satisfy w > 0 and
    -w <= x, y, z <= w. *)
Definition in_frustum (PV : mat4) (p : vec3) : Prop :=
  let q := vecmat (cart2homo p 1) (transpose PV) in
  0 < h3 q /\ - h3 q <= h0 q <= h3 q /\
  - h3 q <= h1 q <= h3 q /\ - h3 q <= h2 q <= h3 q.

(** [unproject(project(P, pixels=b), pixels=b)] *)
Definition round_trip (c : Camera) (P : Tensor) (b : bool) : result Tensor :=
  Q <- project c P b ;; unproject c Q b.

(** The intrinsic of the specification's examples. *)
Definition sample_intrinsic (kind : string) : CameraIntrinsic :=
  mkIntrinsic 90 1 3 (2, 2) kind "cuda:0".

Definition sample_camera : Camera :=
  mkCamera default_extrinsic (sample_intrinsic "perspective") "Camera" "cuda:0".

(** A pose looking along the X axis from (1,0,0). *)
Definition side_extrinsic : CameraExtrinsic :=
  mkExtrinsic (V3 1 0 0) (V3 2 0 0) (V3 0 1 0) "cuda:0".

(** The entries the specification lists for the two projection matrices,
    [a] being the aspect ratio and [fov] the field of view in radians. *)
Definition orthographic_spec_entry (a fov near far : R) (r c : nat) : R :=
  match r, c with
  | 0%nat, 0%nat => 1 / (a * tan (fov / 2))
  | 1%nat, 1%nat => 1 / tan (fov / 2)
  | 2%nat, 2%nat => 2 / (far - near)
  | 2%nat, 3%nat => - (far + near) / (far - near)
  | 3%nat, 3%nat => 1
  | _, _ => 0
  end.

Definition perspective_spec_entry (a fov near far : R) (r c : nat) : R :=
  match r, c with
  | 0%nat, 0%nat => 1 / (a * tan (fov / 2))
  | 1%nat, 1%nat => 1 / tan (fov / 2)
  | 2%nat, 2%nat => (far + near) / (far - near)
  | 2%nat, 3%nat => - 2 * far * near / (far - near)
  | 3%nat, 2%nat => 1
  | _, _ => 0
  end.

(** ** Retargeting a camera *)

Module Retarget.
Import Store.
Local Open Scope store_scope.

(** [CameraExtrinsic.to(kwargs)]; [kw] is the entry of the key 'device'
    in [kwargs], if there is one.  The three vectors are assigned again in
    any case. *)
Definition extrinsic_to_kwargs (l : loc) (kw : option string) : M loc :=
  e <- load_extrinsic l ;;
  _ <- store_extrinsic l (match kw with Some d => extrinsic_to e d | None => e end) ;;
  ret l.

(** [CameraIntrinsic.to(kwargs)]: nothing is assigned without the key
    'device'. *)
Definition intrinsic_to_kwargs (l : loc) (kw : option string) : M loc :=
  match kw with
  | Some d => int_to l d
  | None => ret l
  end.

(** [Camera.to(kwargs)]: the assignment to [device] cascades through
    [__setattr__] to the two referenced objects, which are then retargeted
    once more with [kwargs]. *)
Definition camera_to (c : loc) (kw : option string) : M loc :=
  o <- load_camera c ;;
  _ <- match kw with
       | Some d =>
           _ <- store_camera c (mkCameraObj (extrinsic_ref o) (intrinsic_ref o) (obj_name o) d) ;;
           _ <- ext_to (extrinsic_ref o) d ;;
           int_to (intrinsic_ref o) d
       | None => ret c
       end ;;
  _ <- extrinsic_to_kwargs (extrinsic_ref o) kw ;;
  _ <- intrinsic_to_kwargs (intrinsic_ref o) kw ;;
  ret c.

End Retarget.

(** ** Rigs on a polyhedron *)

Record mat3 : Type := M3 { m0 : vec3; m1 : vec3; m2 : vec3 }.

(** One row of [torch.mm(P, torch.t(R))]. *)
Definition row_mm_transpose (p : vec3) (R : mat3) : vec3 :=
  V3 (dot p (m0 R)) (dot p (m1 R)) (dot p (m2 R)).

(** The tilt [R] of the polyhedron rigs, a rotation about the X axis. *)
Definition tilt (theta : R) : mat3 :=
  M3 (V3 1 0 0)
     (V3 0 (cos theta) (- sin theta))
     (V3 0 (sin theta) (cos theta)).

Section Polyhedron.

(** Modelled from the spec: the polyhedron constructors ([Octahedron],
    [Icosahedron] and their subdivisions), [poly2edge] on their topology
    and [cart2sph] are not part of the sources at hand; the spec has a
    constructor return vertex positions and a topology, and the edge list
    come from that topology.  They are parameters here. *)
Variable Topology : Type.
Variable poly2edge_of : Topology -> list (Z * Z) * list Z.
Variable cart2sph : vec3 -> vec3.
Variable Octahedron Icosahedron Octahedron_2 Icosahedron_2 Octahedron_3 : Tensor * Topology.

Definition camera_from_polyhedron (polyhedronFcn : Tensor * Topology)
    (camera_distance : R) (to_spherical : bool) : Tensor * list (Z * Z) :=
  let P := fst polyhedronFcn in
  let T := snd polyhedronFcn in
  let theta := PI / 100 in
  let R := tilt theta in
  let P := map (fun p => vscale camera_distance (row_mm_transpose (normr p) R)) P in
  let P := if to_spherical then map cart2sph P else P in
  (P, fst (poly2edge_of T)).

Definition camera_6 (camera_distance : R) (to_spherical : bool) :=
  camera_from_polyhedron Octahedron camera_distance to_spherical.

Definition camera_12 (camera_distance : R) (to_spherical : bool) :=
  camera_from_polyhedron Icosahedron camera_distance to_spherical.

Definition camera_18 (camera_distance : R) (to_spherical : bool) :=
  camera_from_polyhedron Octahedron_2 camera_distance to_spherical.

Definition camera_42 (camera_distance : R) (to_spherical : bool) :=
  camera_from_polyhedron Icosahedron_2 camera_distance to_spherical.

Definition camera_66 (camera_distance : R) (to_spherical : bool) :=
  camera_from_polyhedron Octahedron_3 camera_distance to_spherical.

End Polyhedron.

(** A sample polyhedron: the six vertices of an octahedron, no topology. *)
Definition sample_octahedron : Tensor * unit :=
  ([V3 1 0 0; V3 (-1) 0 0; V3 0 1 0; V3 0 (-1) 0; V3 0 0 1; V3 0 0 (-1)], tt).

(** ** Proof automation *)

(** Case split on a matrix index below 4. *)
Ltac each_index r c :=
  destruct r as [| [| [| [| ?]]]]; try lia;
  destruct c as [| [| [| [| ?]]]]; try lia.

(** Reduce the field accesses of a store. *)
Ltac heap_fields :=
  cbn [fst snd Store.extrinsics Store.intrinsics Store.cameras Store.next
       Store.extrinsic_ref Store.intrinsic_ref
       Store.default_extrinsic_ref Store.default_intrinsic_ref].

(** A lookup through a stack of inserts at distinct locations. *)
Ltac solve_lookup :=
  heap_fields; repeat (rewrite lookup_insert_ne by lia); apply lookup_insert_eq.


(** * Properties *)

(** ** Results and divisions *)

Lemma pydiv_ok (a b : R) : b <> 0 -> pydiv a b = Ok (a / b).
Proof.
  intros Hb. unfold pydiv. destruct (Req_dec_T b 0) as [E | _]; [contradiction | reflexivity].
Qed.

Lemma pydiv_cases (a b : R) : pydiv a b = Ok (a / b) \/ pydiv a b = Raise ZeroDivisionError.
Proof.
  unfold pydiv. destruct (Req_dec_T b 0); [right | left]; reflexivity.
Qed.

Lemma rbind_raise_inv {A B : Type} (r : result A) (k : A -> result B) (e : exn) :
  rbind r k = Raise e -> r = Raise e \/ exists a, r = Ok a /\ k a = Raise e.
Proof.
  destruct r as [a | e']; simpl; intros H.
  - right. exists a. split; [reflexivity | exact H].
  - left. injection H as ->. reflexivity.
Qed.

(** ** Intrinsic parameters *)

Lemma half_fov_tan_pos (i : CameraIntrinsic) :
  0 < fov i < 180 -> 0 < tan (deg2rad (fov i) / 2).
Proof.
  intros [Hlo Hhi]. pose proof PI_RGT_0 as Hpi.
  apply tan_gt_0; unfold deg2rad; nra.
Qed.

Lemma valid_denominators (i : CameraIntrinsic) :
  valid_intrinsic i ->
  snd (image_size i) <> 0 /\
  fst (image_size i) / snd (image_size i) * tan (deg2rad (fov i) / 2) <> 0 /\
  tan (deg2rad (fov i) / 2) <> 0 /\
  far i - near i <> 0.
Proof.
  intros (Hfov & Hclip & Hw & Hh).
  pose proof (half_fov_tan_pos i Hfov) as Ht.
  assert (Ha : 0 < fst (image_size i) / snd (image_size i))
    by (apply Rdiv_lt_0_compat; assumption).
  repeat split; try lra.
  apply Rgt_not_eq. apply Rmult_lt_0_compat; assumption.
Qed.

Lemma orthographic_matrix_value (i : CameraIntrinsic) :
  valid_intrinsic i ->
  let a := fst (image_size i) / snd (image_size i) in
  let t := tan (deg2rad (fov i) / 2) in
  orthographic_matrix i =
    Ok (M4 (V4 (1 / (a * t)) 0 0 0)
           (V4 0 (1 / t) 0 0)
           (V4 0 0 (2 / (far i - near i)) (- (far i + near i) / (far i - near i)))
           (V4 0 0 0 1)).
Proof.
  intros Hv a t. destruct (valid_denominators i Hv) as (Hh & Hat & Ht & Hfn).
  unfold orthographic_matrix, aspect.
  rewrite (pydiv_ok _ _ Hh). simpl rbind.
  rewrite (pydiv_ok _ _ Hat). simpl rbind.
  rewrite (pydiv_ok _ _ Ht). simpl rbind.
  rewrite !(pydiv_ok _ _ Hfn). simpl rbind.
  reflexivity.
Qed.

Lemma perspective_matrix_value (i : CameraIntrinsic) :
  valid_intrinsic i ->
  let a := fst (image_size i) / snd (image_size i) in
  let t := tan (deg2rad (fov i) / 2) in
  perspective_matrix i =
    Ok (M4 (V4 (1 / (a * t)) 0 0 0)
           (V4 0 (1 / t) 0 0)
           (V4 0 0 ((far i + near i) / (far i - near i))
                   (-2 * (far i * near i) / (far i - near i)))
           (V4 0 0 1 0)).
Proof.
  intros Hv a t. destruct (valid_denominators i Hv) as (Hh & Hat & Ht & Hfn).
  unfold perspective_matrix, aspect.
  rewrite (pydiv_ok _ _ Hh). simpl rbind.
  rewrite (pydiv_ok _ _ Hat). simpl rbind.
  rewrite (pydiv_ok _ _ Ht). simpl rbind.
  rewrite !(pydiv_ok _ _ Hfn). simpl rbind.
  reflexivity.
Qed.

Lemma sample_intrinsic_valid (kind : string) : valid_intrinsic (sample_intrinsic kind).
Proof. unfold valid_intrinsic; simpl; lra. Qed.

Lemma sample_half_fov_tan : tan (deg2rad 90 / 2) = 1.
Proof.
  unfold deg2rad.
  replace (90 * PI / 180 / 2) with (PI / 4) by field.
  exact tan_PI4.
Qed.

Lemma pydiv_ok_inv (a b x : R) : pydiv a b = Ok x -> b <> 0.
Proof.
  unfold pydiv. destruct (Req_dec_T b 0) as [E | N]; [discriminate | intros _; exact N].
Qed.

(** The builders share their denominators: one returns exactly when the
    other does. *)
Lemma orthographic_matrix_defined (i : CameraIntrinsic) :
  snd (image_size i) <> 0 ->
  fst (image_size i) / snd (image_size i) * tan (deg2rad (fov i) / 2) <> 0 ->
  tan (deg2rad (fov i) / 2) <> 0 ->
  far i - near i <> 0 ->
  exists O, orthographic_matrix i = Ok O.
Proof.
  intros Hh Hat Ht Hfn. unfold orthographic_matrix, aspect.
  rewrite (pydiv_ok _ _ Hh). simpl rbind.
  rewrite (pydiv_ok _ _ Hat). simpl rbind.
  rewrite (pydiv_ok _ _ Ht). simpl rbind.
  rewrite !(pydiv_ok _ _ Hfn). simpl rbind.
  eexists. reflexivity.
Qed.

Lemma perspective_matrix_denominators (i : CameraIntrinsic) (M : mat4) :
  perspective_matrix i = Ok M ->
  snd (image_size i) <> 0 /\
  fst (image_size i) / snd (image_size i) * tan (deg2rad (fov i) / 2) <> 0 /\
  tan (deg2rad (fov i) / 2) <> 0 /\
  far i - near i <> 0.
Proof.
  unfold perspective_matrix, aspect. intros H.
  destruct (pydiv (fst (image_size i)) (snd (image_size i))) as [a |] eqn:Ea;
    [| discriminate].
  pose proof (pydiv_ok_inv _ _ _ Ea) as Hh.
  rewrite (pydiv_ok _ _ Hh) in Ea. injection Ea as <-. simpl rbind in H.
  destruct (pydiv 1 (fst (image_size i) / snd (image_size i) * tan (deg2rad (fov i) / 2)))
    as [m00 |] eqn:E0; [| discriminate].
  simpl rbind in H.
  destruct (pydiv 1 (tan (deg2rad (fov i) / 2))) as [m11 |] eqn:E1; [| discriminate].
  simpl rbind in H.
  destruct (pydiv (far i + near i) (far i - near i)) as [m22 |] eqn:E2; [| discriminate].
  split; [exact Hh |]. split; [exact (pydiv_ok_inv _ _ _ E0) |].
  split; [exact (pydiv_ok_inv _ _ _ E1) | exact (pydiv_ok_inv _ _ _ E2)].
Qed.

(** Whenever the builders return, they return these matrices. *)
Lemma orthographic_matrix_returns (i : CameraIntrinsic) (M : mat4) :
  orthographic_matrix i = Ok M ->
  let a := fst (image_size i) / snd (image_size i) in
  let t := tan (deg2rad (fov i) / 2) in
  aspect i = Ok a /\
  M = M4 (V4 (1 / (a * t)) 0 0 0)
         (V4 0 (1 / t) 0 0)
         (V4 0 0 (2 / (far i - near i)) (- (far i + near i) / (far i - near i)))
         (V4 0 0 0 1).
Proof.
  unfold orthographic_matrix, aspect.
  repeat match goal with
         | |- context [pydiv ?a ?b] =>
             destruct (pydiv_cases a b) as [-> | ->]; simpl rbind
         end; try discriminate.
  intros H. injection H as <-. split; reflexivity.
Qed.

Lemma perspective_matrix_returns (i : CameraIntrinsic) (M : mat4) :
  perspective_matrix i = Ok M ->
  let a := fst (image_size i) / snd (image_size i) in
  let t := tan (deg2rad (fov i) / 2) in
  aspect i = Ok a /\
  M = M4 (V4 (1 / (a * t)) 0 0 0)
         (V4 0 (1 / t) 0 0)
         (V4 0 0 ((far i + near i) / (far i - near i))
                 (-2 * (far i * near i) / (far i - near i)))
         (V4 0 0 1 0).
Proof.
  unfold perspective_matrix, aspect.
  repeat match goal with
         | |- context [pydiv ?a ?b] =>
             destruct (pydiv_cases a b) as [-> | ->]; simpl rbind
         end; try discriminate.
  intros H. injection H as <-. split; reflexivity.
Qed.

(** C5: whenever [orthographic_matrix] returns, and it does for every
    intrinsic of the data model (0 < fov < 180, 0 < near < far, positive
    image size), the result is a 4x4 matrix with
    M[0,0] = 1/(aspect * tan(fov/2)), M[1,1] = 1/tan(fov/2),
    M[2,2] = 2/(far-near), M[2,3] = -(far+near)/(far-near), M[3,3] = 1 and
    every other entry zero; for fov=90, near=1, far=3, image_size=(2,2)
    these are M[0,0] = M[1,1] = 1, M[2,2] = 1, M[2,3] = -2, M[3,3] = 1. *)
Theorem orthographic_matrix_entries :
  (forall (i : CameraIntrinsic) (M : mat4),
     orthographic_matrix i = Ok M ->
     exists a, aspect i = Ok a /\
       forall r c : nat, (r < 4)%nat -> (c < 4)%nat ->
         entry M r c = orthographic_spec_entry a (deg2rad (fov i)) (near i) (far i) r c) /\
  (forall i : CameraIntrinsic, valid_intrinsic i ->
     exists M, orthographic_matrix i = Ok M) /\
  (forall kind : string,
     exists M, orthographic_matrix (sample_intrinsic kind) = Ok M /\
       entry M 0 0 = 1 /\ entry M 1 1 = 1 /\
       entry M 2 2 = 1 /\ entry M 2 3 = -2 /\ entry M 3 3 = 1).
Proof.
  split; [| split].
  - intros i M HM. destruct (orthographic_matrix_returns i M HM) as [Ha ->].
    eexists. split; [exact Ha |].
    intros r c Hr Hc. each_index r c; reflexivity.
  - intros i Hv. eexists. apply orthographic_matrix_value. exact Hv.
  - intros kind. eexists.
    split; [apply orthographic_matrix_value; apply sample_intrinsic_valid |].
    unfold entry; simpl.
    rewrite sample_half_fov_tan.
    repeat split; field.
Qed.

(** C5 at the sample intrinsic: it is valid, the builder returns, and the
    entries of what it returns are the listed ones. *)
Lemma orthographic_matrix_entries_witness :
  valid_intrinsic (sample_intrinsic "orthographic") /\
  exists M a, orthographic_matrix (sample_intrinsic "orthographic") = Ok M /\
    aspect (sample_intrinsic "orthographic") = Ok a /\
    forall r c : nat, (r < 4)%nat -> (c < 4)%nat ->
      entry M r c = orthographic_spec_entry a (deg2rad 90) 1 3 r c.
Proof.
  split; [apply sample_intrinsic_valid |].
  destruct (proj1 (proj2 orthographic_matrix_entries) (sample_intrinsic "orthographic")
              (sample_intrinsic_valid "orthographic")) as [M HM].
  destruct (proj1 orthographic_matrix_entries (sample_intrinsic "orthographic") M HM)
    as [a [Ha He]].
  exists M, a. split; [exact HM |]. split; [exact Ha | exact He].
Defined.

(** C6: whenever [perspective_matrix] returns, and it does for every
    intrinsic of the data model, the result is a 4x4 matrix whose M[0,0] and
    M[1,1] are those of [orthographic_matrix], with
    M[2,2] = (far+near)/(far-near), M[2,3] = -2*far*near/(far-near),
    M[3,2] = 1 and every other entry zero; for fov=90, near=1, far=3,
    image_size=(2,2) it has M[3,2] = 1, M[2,2] = 2, M[2,3] = -3. *)
Theorem perspective_matrix_entries :
  (forall (i : CameraIntrinsic) (M : mat4),
     perspective_matrix i = Ok M ->
     exists a O, aspect i = Ok a /\ orthographic_matrix i = Ok O /\
       entry M 0 0 = entry O 0 0 /\ entry M 1 1 = entry O 1 1 /\
       forall r c : nat, (r < 4)%nat -> (c < 4)%nat ->
         entry M r c = perspective_spec_entry a (deg2rad (fov i)) (near i) (far i) r c) /\
  (forall i : CameraIntrinsic, valid_intrinsic i ->
     exists M, perspective_matrix i = Ok M) /\
  (forall kind : string,
     exists M, perspective_matrix (sample_intrinsic kind) = Ok M /\
       entry M 3 2 = 1 /\ entry M 2 2 = 2 /\ entry M 2 3 = -3).
Proof.
  split; [| split].
  - intros i M HM. destruct (perspective_matrix_returns i M HM) as [Ha ->].
    assert (HO : exists O, orthographic_matrix i = Ok O).
    { destruct (perspective_matrix_denominators i _ HM) as (Hh & Hat & Ht & Hfn).
      apply orthographic_matrix_defined; assumption. }
    destruct HO as [O HO].
    destruct (orthographic_matrix_returns i O HO) as [_ ->].
    eexists; eexists. split; [exact Ha |].
    split; [exact HO |]. split; [reflexivity |]. split; [reflexivity |].
    intros r c Hr Hc. each_index r c; try reflexivity.
    unfold entry, perspective_spec_entry; simpl. f_equal. ring.
  - intros i Hv. eexists. apply perspective_matrix_value. exact Hv.
  - intros kind. eexists.
    split; [apply perspective_matrix_value; apply sample_intrinsic_valid |].
    unfold entry; simpl.
    repeat split; field.
Qed.

(** C6 at the sample intrinsic. *)
Lemma perspective_matrix_entries_witness :
  valid_intrinsic (sample_intrinsic "perspective") /\
  exists M a O, perspective_matrix (sample_intrinsic "perspective") = Ok M /\
    aspect (sample_intrinsic "perspective") = Ok a /\
    orthographic_matrix (sample_intrinsic "perspective") = Ok O /\
    entry M 0 0 = entry O 0 0 /\ entry M 1 1 = entry O 1 1 /\
    forall r c : nat, (r < 4)%nat -> (c < 4)%nat ->
      entry M r c = perspective_spec_entry a (deg2rad 90) 1 3 r c.
Proof.
  split; [apply sample_intrinsic_valid |].
  destruct (proj1 (proj2 perspective_matrix_entries) (sample_intrinsic "perspective")
              (sample_intrinsic_valid "perspective")) as [M HM].
  destruct (proj1 perspective_matrix_entries (sample_intrinsic "perspective") M HM)
    as [a [O H]].
  exists M, a, O. split; [exact HM | exact H].
Defined.

(** ** Dispatch on the projection kind *)

Lemma orthographic_matrix_raises (i : CameraIntrinsic) (e : exn) :
  orthographic_matrix i = Raise e -> e = ZeroDivisionError.
Proof.
  unfold orthographic_matrix, aspect.
  repeat match goal with
         | |- context [pydiv ?a ?b] =>
             destruct (pydiv_cases a b) as [-> | ->]; simpl rbind
         end; congruence.
Qed.

Lemma perspective_matrix_raises (i : CameraIntrinsic) (e : exn) :
  perspective_matrix i = Raise e -> e = ZeroDivisionError.
Proof.
  unfold perspective_matrix, aspect.
  repeat match goal with
         | |- context [pydiv ?a ?b] =>
             destruct (pydiv_cases a b) as [-> | ->]; simpl rbind
         end; congruence.
Qed.

Lemma projection_matrix_raises (i : CameraIntrinsic) (e : exn) :
  projection_matrix i = Raise e ->
  e = ZeroDivisionError \/ e = ValueError "Unknown projection type.".
Proof.
  unfold projection_matrix.
  destruct (String.eqb (projection i) "orthographic").
  - intros H. left. exact (orthographic_matrix_raises i e H).
  - destruct (String.eqb (projection i) "perspective").
    + intros H. left. exact (perspective_matrix_raises i e H).
    + intros H. right. congruence.
Qed.

(** C7: [projection_matrix] returns what [orthographic_matrix] returns when
    the projection field is 'orthographic' and what [perspective_matrix]
    returns when it is 'perspective'; it raises the ValueError of an unknown
    projection type if and only if the field is any other value; the call
    leaves the store, hence the intrinsic, as it found it. *)
Theorem projection_matrix_dispatch :
  forall i : CameraIntrinsic,
    (projection i = "orthographic"%string -> projection_matrix i = orthographic_matrix i) /\
    (projection i = "perspective"%string -> projection_matrix i = perspective_matrix i) /\
    ((exists msg, projection_matrix i = Raise (ValueError msg)) <->
       (projection i <> "orthographic"%string /\ projection i <> "perspective"%string)) /\
    (forall (l : Store.loc) (h : Store.heap),
       Store.intrinsics h !! l = Some i ->
       Store.int_projection_matrix l h = (projection_matrix i, h)).
Proof.
  intros i. unfold projection_matrix.
  destruct (String.eqb_spec (projection i) "orthographic") as [Eo | No].
  - split; [reflexivity |]. split; [rewrite Eo; discriminate |].
    split.
    + split.
      * intros [msg H]. apply orthographic_matrix_raises in H. discriminate.
      * intros [H _]. contradiction.
    + intros l h Hl. unfold Store.int_projection_matrix, Store.sbind, Store.load_intrinsic.
      rewrite Hl. unfold Store.lift, projection_matrix.
      rewrite Eo. reflexivity.
  - split; [contradiction |].
    destruct (String.eqb_spec (projection i) "perspective") as [Ep | Np].
    + split; [reflexivity |]. split.
      * split.
        -- intros [msg H]. apply perspective_matrix_raises in H. discriminate.
        -- intros [_ H]. contradiction.
      * intros l h Hl. unfold Store.int_projection_matrix, Store.sbind, Store.load_intrinsic.
        rewrite Hl. unfold Store.lift, projection_matrix.
        rewrite Ep. reflexivity.
    + split; [contradiction |]. split.
      * split.
        -- intros _. split; assumption.
        -- intros _. eexists. reflexivity.
      * intros l h Hl. unfold Store.int_projection_matrix, Store.sbind, Store.load_intrinsic.
        rewrite Hl. unfold Store.lift, projection_matrix.
        destruct (String.eqb_spec (projection i) "orthographic"); [contradiction |].
        destruct (String.eqb_spec (projection i) "perspective"); [contradiction |].
        reflexivity.
Qed.

(** C7 at the default intrinsic, whose projection is 'perspective', at the
    sample intrinsic with kind 'orthographic', at an unknown kind, and on a
    store holding the default intrinsic at location 0. *)
Lemma projection_matrix_dispatch_witness :
  projection_matrix default_intrinsic = perspective_matrix default_intrinsic /\
  projection_matrix (sample_intrinsic "orthographic") =
    orthographic_matrix (sample_intrinsic "orthographic") /\
  (exists msg, projection_matrix (sample_intrinsic "fisheye") = Raise (ValueError msg)) /\
  Store.int_projection_matrix 0%nat
    (Store.mkHeap ∅ (<[0%nat := default_intrinsic]> ∅) ∅ 1%nat) =
    (projection_matrix default_intrinsic,
     Store.mkHeap ∅ (<[0%nat := default_intrinsic]> ∅) ∅ 1%nat).
Proof.
  split; [| split; [| split]].
  - apply (proj1 (proj2 (projection_matrix_dispatch default_intrinsic))).
    reflexivity.
  - apply (proj1 (projection_matrix_dispatch (sample_intrinsic "orthographic"))).
    reflexivity.
  - apply (proj1 (proj2 (proj2 (projection_matrix_dispatch (sample_intrinsic "fisheye"))))).
    split; discriminate.
  - apply (proj2 (proj2 (proj2 (projection_matrix_dispatch default_intrinsic)))).
    apply lookup_insert_eq.
Defined.

(** ** The unbound local of [unproject] *)

(** C4: for every UVd, [unproject(UVd, pixels=True)] raises the unbound
    local error on [P], whatever UVd and the camera are, so it never
    returns; with [pixels=False] that error is never raised. *)
Theorem unproject_pixels_unbound_local :
  forall (c : Camera) (UVd : Tensor),
    unproject c UVd true = Raise (UnboundLocalError "P") /\
    (forall name : string, unproject c UVd false <> Raise (UnboundLocalError name)).
Proof.
  intros c UVd. split.
  - reflexivity.
  - intros nm H. unfold unproject in H. simpl rbind in H.
    apply rbind_raise_inv in H as [H | (Pm & _ & H)].
    + apply projection_matrix_raises in H as [H | H]; discriminate.
    + apply rbind_raise_inv in H as [H | (Mi & _ & H)]; [| discriminate].
      unfold inverse in H.
      destruct (Req_dec_T _ 0); discriminate.
Qed.

(** ** The view matrix *)

Lemma normr_unit (v : vec3) : dot v v = 1 -> normr v = v.
Proof.
  intros H. unfold normr, norm. rewrite H, sqrt_1.
  destruct v as [x y z]; simpl. f_equal; field.
Qed.

Lemma vec3_eq (a b c a' b' c' : R) :
  a = a' -> b = b' -> c = c' -> V3 a b c = V3 a' b' c'.
Proof. intros -> -> ->. reflexivity. Qed.

Lemma view_matrix_default : view_matrix default_extrinsic = identity4.
Proof.
  cbv [view_matrix default_extrinsic direction position target up_vector].
  assert (Hz : vsub (V3 0 0 1) (V3 0 0 0) = V3 0 0 1)
    by (unfold vsub; simpl; apply vec3_eq; ring).
  rewrite Hz.
  rewrite (normr_unit (V3 0 0 1)) by (unfold dot; simpl; ring).
  assert (Hx : cross (V3 0 1 0) (V3 0 0 1) = V3 1 0 0)
    by (unfold cross; simpl; apply vec3_eq; ring).
  rewrite Hx.
  rewrite (normr_unit (V3 1 0 0)) by (unfold dot; simpl; ring).
  unfold cat_columns_then_row, cross, vneg, identity4; simpl.
  repeat f_equal; ring.
Qed.

Lemma view_matrix_side :
  view_matrix side_extrinsic =
    M4 (V4 0 0 1 (-1)) (V4 0 1 0 0) (V4 (-1) 0 0 0) (V4 0 0 0 1).
Proof.
  cbv [view_matrix side_extrinsic direction position target up_vector].
  assert (Hz : vsub (V3 2 0 0) (V3 1 0 0) = V3 1 0 0)
    by (unfold vsub; simpl; apply vec3_eq; ring).
  rewrite Hz.
  rewrite (normr_unit (V3 1 0 0)) by (unfold dot; simpl; ring).
  assert (Hx : cross (V3 0 1 0) (V3 1 0 0) = V3 0 0 (-1))
    by (unfold cross; simpl; apply vec3_eq; ring).
  rewrite Hx.
  rewrite (normr_unit (V3 0 0 (-1))) by (unfold dot; simpl; ring).
  unfold cat_columns_then_row, cross, vneg; simpl.
  repeat f_equal; ring.
Qed.

Lemma view_matrix_spec_side :
  view_matrix_spec side_extrinsic =
    M4 (V4 0 0 (-1) 0) (V4 0 1 0 0) (V4 1 0 0 (-1)) (V4 0 0 0 1).
Proof.
  cbv [view_matrix_spec side_extrinsic direction position target up_vector].
  assert (Hz : vsub (V3 2 0 0) (V3 1 0 0) = V3 1 0 0)
    by (unfold vsub; simpl; apply vec3_eq; ring).
  rewrite Hz.
  rewrite (normr_unit (V3 1 0 0)) by (unfold dot; simpl; ring).
  assert (Hx : cross (V3 0 1 0) (V3 1 0 0) = V3 0 0 (-1))
    by (unfold cross; simpl; apply vec3_eq; ring).
  rewrite Hx.
  rewrite (normr_unit (V3 0 0 (-1))) by (unfold dot; simpl; ring).
  unfold cross, dot; simpl.
  repeat f_equal; ring.
Qed.

Lemma side_extrinsic_nondegenerate : nondegenerate side_extrinsic.
Proof.
  unfold nondegenerate, side_extrinsic, direction, cross, vsub; simpl. split.
  - intros H. injection H as Hx _ _. lra.
  - intros H. injection H as _ _ Hz. lra.
Qed.

(** The layout the code assembles, for every extrinsic: with
    z = normalize(target - position), x = normalize(cross(up_vector, z))
    and y = cross(z, x), the basis vectors are the columns of the 3x3
    block, the last column is (-position, 1) and the last row (0,0,0,1). *)
Lemma view_matrix_layout (e : CameraExtrinsic) :
  let z := normr (vsub (target e) (position e)) in
  let x := normr (cross (up_vector e) z) in
  let y := cross z x in
  let M := view_matrix e in
  col M 0 = V4 (vx x) (vy x) (vz x) 0 /\
  col M 1 = V4 (vx y) (vy y) (vz y) 0 /\
  col M 2 = V4 (vx z) (vy z) (vz z) 0 /\
  col M 3 = V4 (- vx (position e)) (- vy (position e)) (- vz (position e)) 1 /\
  row M 3 = V4 0 0 0 1.
Proof. repeat split. Qed.

(** A matrix of the stated form, rows x, y, z and last column minus their
    dot products with the position, sends the position to the origin. *)
Lemma rows_form_centres_position (x y z p : vec3) :
  vecmat (cart2homo p 1)
         (transpose (M4 (V4 (vx x) (vy x) (vz x) (- dot x p))
                        (V4 (vx y) (vy y) (vz y) (- dot y p))
                        (V4 (vx z) (vy z) (vz z) (- dot z p))
                        (V4 0 0 0 1)))
  = V4 0 0 0 1.
Proof.
  destruct x as [x0 x1 x2], y as [y0 y1 y2], z as [z0 z1 z2], p as [p0 p1 p2].
  unfold vecmat, transpose, mk4, dot4, col, entry, cart2homo, dot; simpl.
  f_equal; ring.
Qed.

(** C2: [view_matrix] does not return the matrix the claim states.  The
    stated form (basis vectors as rows, last column minus their dot products
    with the position) sends the camera position to the origin, for every
    pose.  The code puts the basis vectors in the columns and minus the
    position itself in the last column, for every pose; at position (1,0,0),
    target (2,0,0), up (0,1,0), a non-degenerate pose, its matrix is
    [[0,0,1,-1],[0,1,0,0],[-1,0,0,0],[0,0,0,1]] where the stated one is
    [[0,0,-1,0],[0,1,0,0],[1,0,0,-1],[0,0,0,1]]: it sends the camera
    position to (-1,0,-1) and the target to (-1,0,-2), behind the camera,
    where the stated matrix sends them to (0,0,0) and (0,0,1).  At the
    default pose both are the identity. *)
Theorem view_matrix_misplaces_camera :
  (forall e : CameraExtrinsic,
     vecmat (cart2homo (position e) 1) (transpose (view_matrix_spec e)) = V4 0 0 0 1) /\
  (forall e : CameraExtrinsic,
     let z := normr (vsub (target e) (position e)) in
     let x := normr (cross (up_vector e) z) in
     let y := cross z x in
     let M := view_matrix e in
     col M 0 = V4 (vx x) (vy x) (vz x) 0 /\
     col M 1 = V4 (vx y) (vy y) (vz y) 0 /\
     col M 2 = V4 (vx z) (vy z) (vz z) 0 /\
     col M 3 = V4 (- vx (position e)) (- vy (position e)) (- vz (position e)) 1 /\
     row M 3 = V4 0 0 0 1) /\
  nondegenerate side_extrinsic /\
  view_matrix side_extrinsic
    = M4 (V4 0 0 1 (-1)) (V4 0 1 0 0) (V4 (-1) 0 0 0) (V4 0 0 0 1) /\
  view_matrix_spec side_extrinsic
    = M4 (V4 0 0 (-1) 0) (V4 0 1 0 0) (V4 1 0 0 (-1)) (V4 0 0 0 1) /\
  view_matrix side_extrinsic <> view_matrix_spec side_extrinsic /\
  vecmat (cart2homo (position side_extrinsic) 1) (transpose (view_matrix side_extrinsic))
    = V4 (-1) 0 (-1) 1 /\
  vecmat (cart2homo (target side_extrinsic) 1) (transpose (view_matrix side_extrinsic))
    = V4 (-1) 0 (-2) 1 /\
  vecmat (cart2homo (target side_extrinsic) 1) (transpose (view_matrix_spec side_extrinsic))
    = V4 0 0 1 1 /\
  view_matrix default_extrinsic = identity4 /\
  view_matrix_spec default_extrinsic = identity4.
Proof.
  split; [intros e; exact (rows_form_centres_position _ _ _ _) |].
  split; [exact view_matrix_layout |].
  split; [exact side_extrinsic_nondegenerate |].
  split; [exact view_matrix_side |].
  split; [exact view_matrix_spec_side |].
  rewrite view_matrix_side, view_matrix_spec_side.
  split; [intros H; injection H as H; lra |].
  assert (Hv : forall (M : mat4) (p : vec3) (a b c d : R),
             dot4 (cart2homo p 1) (row M 0) = a -> dot4 (cart2homo p 1) (row M 1) = b ->
             dot4 (cart2homo p 1) (row M 2) = c -> dot4 (cart2homo p 1) (row M 3) = d ->
             vecmat (cart2homo p 1) (transpose M) = V4 a b c d).
  { intros [[a0 a1 a2 a3] [b0 b1 b2 b3] [c0 c1 c2 c3] [d0 d1 d2 d3]] [p0 p1 p2] a b c d.
    unfold vecmat, transpose, mk4, dot4, col, entry, cart2homo; simpl.
    intros <- <- <- <-. reflexivity. }
  split; [apply Hv; unfold dot4, cart2homo, side_extrinsic; simpl; ring |].
  split; [apply Hv; unfold dot4, cart2homo, side_extrinsic; simpl; ring |].
  split; [apply Hv; unfold dot4, cart2homo, side_extrinsic; simpl; ring |].
  split; [exact view_matrix_default |].
  cbv [view_matrix_spec default_extrinsic direction position target up_vector].
  assert (Hz : vsub (V3 0 0 1) (V3 0 0 0) = V3 0 0 1)
    by (unfold vsub; simpl; apply vec3_eq; ring).
  rewrite Hz.
  rewrite (normr_unit (V3 0 0 1)) by (unfold dot; simpl; ring).
  assert (Hx : cross (V3 0 1 0) (V3 0 0 1) = V3 1 0 0)
    by (unfold cross; simpl; apply vec3_eq; ring).
  rewrite Hx.
  rewrite (normr_unit (V3 1 0 0)) by (unfold dot; simpl; ring).
  unfold cross, dot, identity4; simpl.
  repeat f_equal; ring.
Qed.

(** ** Projection *)

Lemma sample_projection_matrix :
  projection_matrix (sample_intrinsic "perspective") =
    Ok (M4 (V4 1 0 0 0) (V4 0 1 0 0) (V4 0 0 2 (-3)) (V4 0 0 1 0)).
Proof.
  unfold projection_matrix. simpl String.eqb. cbv iota.
  rewrite perspective_matrix_value by apply sample_intrinsic_valid.
  simpl. rewrite sample_half_fov_tan.
  do 2 f_equal; f_equal; field.
Qed.

Lemma matmul_identity_r (M : mat4) : matmul M identity4 = M.
Proof.
  destruct M as [[a0 a1 a2 a3] [b0 b1 b2 b3] [c0 c1 c2 c3] [d0 d1 d2 d3]].
  unfold matmul, mk4, dot4, col, entry, identity4; simpl.
  repeat f_equal; ring.
Qed.

(** C3, as stated, fails: with [pixels=False] the sample camera sends
    (0,0,1), whose normalised device coordinates are (0,0,-1), to
    (1/2,1/2,0). *)
Lemma project_unscaled_counterexample :
  exists Pm : mat4,
    projection_matrix (intrinsic sample_camera) = Ok Pm /\
    ndc (matmul Pm (view_matrix (extrinsic sample_camera))) (V3 0 0 1) = V3 0 0 (-1) /\
    project sample_camera [V3 0 0 1] false = Ok [V3 (1 / 2) (1 / 2) 0] /\
    project sample_camera [V3 0 0 1] false <>
      Ok (map (ndc (matmul Pm (view_matrix (extrinsic sample_camera)))) [V3 0 0 1]).
Proof.
  eexists. split; [exact sample_projection_matrix |].
  assert (Hndc : ndc (matmul (M4 (V4 1 0 0 0) (V4 0 1 0 0) (V4 0 0 2 (-3)) (V4 0 0 1 0))
                        (view_matrix (extrinsic sample_camera))) (V3 0 0 1) = V3 0 0 (-1)).
  { simpl extrinsic. rewrite view_matrix_default, matmul_identity_r.
    unfold ndc, homo2cart, vecmat, cart2homo, transpose, mk4, dot4, col, entry; simpl.
    apply vec3_eq; field. }
  assert (Hp : project sample_camera [V3 0 0 1] false = Ok [V3 (1 / 2) (1 / 2) 0]).
  { unfold project. simpl intrinsic. rewrite sample_projection_matrix. simpl rbind.
    simpl extrinsic. rewrite view_matrix_default, matmul_identity_r.
    unfold homo2cart, vecmat, cart2homo, transpose, mk4, dot4, col, entry, vadd, vmul, splat;
      simpl.
    do 2 f_equal. apply vec3_eq; field. }
  split; [exact Hndc |]. split; [exact Hp |].
  rewrite Hp. cbn [map]. rewrite Hndc.
  intros H. injection H as H _ _. lra.
Qed.

(** C3, amended: when the projection matrix is available, [project] returns
    for each point its normalised device coordinates under
    (projection_matrix x view_matrix) rescaled by u' = u*s + s; with
    [pixels=False] the scale is s = 0.5 on all three coordinates (mapping
    [-1,1] to [0,1]); with [pixels=True] it is
    s = 0.5 * (width-1, height-1, 1). *)
Theorem project_rescales :
  forall (c : Camera) (P : Tensor) (Pm : mat4),
    projection_matrix (intrinsic c) = Ok Pm ->
    let PV := matmul Pm (view_matrix (extrinsic c)) in
    let w := fst (image_size (intrinsic c)) - 1 in
    let h := snd (image_size (intrinsic c)) - 1 in
    project c P false =
      Ok (map (fun p => V3 (vx (ndc PV p) * (1 / 2) + 1 / 2)
                           (vy (ndc PV p) * (1 / 2) + 1 / 2)
                           (vz (ndc PV p) * (1 / 2) + 1 / 2)) P) /\
    project c P true =
      Ok (map (fun p => V3 (vx (ndc PV p) * (1 / 2 * w) + 1 / 2 * w)
                           (vy (ndc PV p) * (1 / 2 * h) + 1 / 2 * h)
                           (vz (ndc PV p) * (1 / 2 * 1) + 1 / 2 * 1)) P).
Proof.
  intros c P Pm HPm PV w h. unfold project. rewrite HPm. simpl rbind.
  rewrite !map_map. split; reflexivity.
Qed.

(** C3 amended, at the sample camera and the point (0,0,1). *)
Lemma project_rescales_witness :
  project sample_camera [V3 0 0 1] false =
    Ok (map (fun p =>
               let q := ndc (matmul (M4 (V4 1 0 0 0) (V4 0 1 0 0) (V4 0 0 2 (-3)) (V4 0 0 1 0))
                               (view_matrix default_extrinsic)) p in
               V3 (vx q * (1 / 2) + 1 / 2) (vy q * (1 / 2) + 1 / 2) (vz q * (1 / 2) + 1 / 2))
            [V3 0 0 1]).
Proof.
  exact (proj1 (project_rescales sample_camera [V3 0 0 1] _ sample_projection_matrix)).
Defined.

(** ** The round trip *)

Lemma vec4_eq (a b c d a' b' c' d' : R) :
  a = a' -> b = b' -> c = c' -> d = d' -> V4 a b c d = V4 a' b' c' d'.
Proof. intros -> -> -> ->. reflexivity. Qed.

Lemma inverse_ok (M : mat4) :
  det4 M <> 0 -> inverse M = Ok (mk4 (fun i j => cofactor M j i / det4 M)).
Proof.
  intros Hd. unfold inverse. destruct (Req_dec_T (det4 M) 0); [contradiction | reflexivity].
Qed.

(** The adjugate undoes the matrix up to the determinant. *)
Lemma adjugate_vecmat (M : mat4) (v : vec4) :
  vecmat (vecmat v (transpose M)) (transpose (mk4 (fun i j => cofactor M j i)))
  = scale4 (det4 M) v.
Proof.
  destruct M as [[a0 a1 a2 a3] [b0 b1 b2 b3] [c0 c1 c2 c3] [d0 d1 d2 d3]].
  destruct v as [x y z w].
  unfold vecmat, transpose, mk4, dot4, col, entry, scale4, det4, cofactor, minor, det3, skip;
    simpl.
  apply vec4_eq; ring.
Qed.

Lemma vecmat_scale (k : R) (v : vec4) (A : mat4) :
  vecmat (scale4 k v) A = scale4 k (vecmat v A).
Proof.
  destruct v as [x y z w]. unfold vecmat, scale4, dot4; simpl.
  apply vec4_eq; ring.
Qed.

Lemma homo2cart_scale (k : R) (v : vec4) :
  k <> 0 -> h3 v <> 0 -> homo2cart (scale4 k v) = homo2cart v.
Proof.
  intros Hk Hw. destruct v as [x y z w]. simpl in Hw.
  unfold homo2cart, scale4; simpl. apply vec3_eq; field; split; assumption.
Qed.

Lemma cart2homo_homo2cart (v : vec4) :
  h3 v <> 0 -> cart2homo (homo2cart v) 1 = scale4 (/ h3 v) v.
Proof.
  intros Hw. destruct v as [x y z w]. simpl in Hw.
  unfold cart2homo, homo2cart, scale4; simpl. apply vec4_eq; field; assumption.
Qed.

Lemma homo2cart_cart2homo (p : vec3) : homo2cart (cart2homo p 1) = p.
Proof.
  destruct p as [x y z]. unfold homo2cart, cart2homo; simpl. apply vec3_eq; field.
Qed.

Lemma inverse_vecmat (M Mi : mat4) (v : vec4) :
  det4 M <> 0 -> inverse M = Ok Mi ->
  vecmat (vecmat v (transpose M)) (transpose Mi) = v.
Proof.
  intros Hd Hi. rewrite (inverse_ok M Hd) in Hi. injection Hi as <-.
  pose proof (adjugate_vecmat M v) as Hadj.
  assert (Hs : transpose (mk4 (fun i j => cofactor M j i / det4 M)) =
               mk4 (fun i j => / det4 M * entry (transpose (mk4 (fun i j => cofactor M j i))) i j)).
  { unfold transpose, mk4, entry; simpl. repeat f_equal; field; assumption. }
  rewrite Hs.
  transitivity (scale4 (/ det4 M)
                  (vecmat (vecmat v (transpose M))
                          (transpose (mk4 (fun i j => cofactor M j i))))).
  - generalize (vecmat v (transpose M)); intros u.
    generalize (transpose (mk4 (fun i j => cofactor M j i))); intros A.
    destruct u as [x y z w].
    destruct A as [[a0 a1 a2 a3] [b0 b1 b2 b3] [c0 c1 c2 c3] [d0 d1 d2 d3]].
    unfold vecmat, mk4, dot4, col, entry, scale4; simpl.
    apply vec4_eq; ring.
  - rewrite Hadj. destruct v as [x y z w]. unfold scale4; simpl.
    apply vec4_eq; field; assumption.
Qed.

(** Scaling to [0,1] and back. *)
Lemma unscale_half (q : vec3) :
  vsub (vmul (vadd (vmul q (splat (1 / 2))) (splat (1 / 2))) (splat 2)) (splat 1) = q.
Proof.
  destruct q as [x y z]. unfold vsub, vmul, vadd, splat; simpl. apply vec3_eq; field.
Qed.

(** One point through [project] and [unproject] with [pixels=False]. *)
Lemma point_round_trip (M Mi : mat4) (p : vec3) :
  det4 M <> 0 -> inverse M = Ok Mi ->
  h3 (vecmat (cart2homo p 1) (transpose M)) <> 0 ->
  homo2cart
    (vecmat (cart2homo
               (vsub (vmul (vadd (vmul (homo2cart (vecmat (cart2homo p 1) (transpose M)))
                                       (splat (1 / 2))) (splat (1 / 2)))
                           (splat 2)) (splat 1)) 1)
            (transpose Mi)) = p.
Proof.
  intros Hd Hi Hw. rewrite unscale_half.
  rewrite (cart2homo_homo2cart _ Hw), vecmat_scale.
  rewrite (inverse_vecmat M Mi _ Hd Hi).
  rewrite homo2cart_scale.
  - apply homo2cart_cart2homo.
  - apply Rinv_neq_0_compat. exact Hw.
  - simpl. lra.
Qed.

(** With [pixels=False] the round trip gives the points back, for every
    camera whose combined matrix is invertible and every point whose
    homogeneous component after projection is not zero. *)
Lemma round_trip_normalized (c : Camera) (P : Tensor) (Pm : mat4) :
  projection_matrix (intrinsic c) = Ok Pm ->
  det4 (matmul Pm (view_matrix (extrinsic c))) <> 0 ->
  Forall (fun p => h3 (vecmat (cart2homo p 1)
                         (transpose (matmul Pm (view_matrix (extrinsic c))))) <> 0) P ->
  round_trip c P false = Ok P.
Proof.
  intros HPm Hd Hw. unfold round_trip, project, unproject.
  rewrite HPm. simpl rbind. rewrite (inverse_ok _ Hd). simpl rbind.
  f_equal. rewrite !map_map.
  induction Hw as [| p P Hp _ IH]; simpl.
  - reflexivity.
  - f_equal; [| exact IH].
    apply (point_round_trip _ _ p Hd (inverse_ok _ Hd) Hp).
Qed.

(** *** Valid configurations have an invertible combined matrix *)

Lemma dot_self_pos (v : vec3) : v <> V3 0 0 0 -> 0 < dot v v.
Proof.
  destruct v as [x y z]. intros Hv. unfold dot; simpl.
  destruct (Rle_lt_dec (x * x + y * y + z * z) 0) as [Hle | Hlt]; [| exact Hlt].
  exfalso. apply Hv.
  assert (x = 0) by nra. assert (y = 0) by nra. assert (z = 0) by nra.
  subst. reflexivity.
Qed.

Lemma norm_pos (v : vec3) : v <> V3 0 0 0 -> 0 < norm v.
Proof. intros Hv. unfold norm. apply sqrt_lt_R0. apply dot_self_pos. exact Hv. Qed.

Lemma norm_sqr (v : vec3) : norm v * norm v = dot v v.
Proof.
  unfold norm. apply sqrt_sqrt. destruct v as [x y z]. unfold dot; simpl. nra.
Qed.

Lemma normr_unit_length (v : vec3) : v <> V3 0 0 0 -> dot (normr v) (normr v) = 1.
Proof.
  intros Hv. pose proof (norm_pos v Hv) as Hn. pose proof (norm_sqr v) as Hs.
  unfold normr. unfold dot at 1; simpl.
  transitivity (dot v v / (norm v * norm v)).
  - unfold dot. field. lra.
  - rewrite Hs. field. rewrite <- Hs. nra.
Qed.

Lemma cross_orthogonal_r (a b : vec3) : dot (cross a b) b = 0.
Proof. destruct a, b. unfold dot, cross; simpl. ring. Qed.

Lemma normr_cross_orthogonal (a b : vec3) : dot (normr (cross a b)) b = 0.
Proof.
  pose proof (cross_orthogonal_r a b) as H.
  unfold normr. set (n := norm (cross a b)).
  transitivity (dot (cross a b) b * / n).
  - unfold dot, cross, Rdiv; simpl. ring.
  - rewrite H. ring.
Qed.

Lemma cross_normr_nonzero (u d : vec3) :
  d <> V3 0 0 0 -> cross u d <> V3 0 0 0 -> cross u (normr d) <> V3 0 0 0.
Proof.
  intros Hd Hc H0. apply Hc. pose proof (norm_pos d Hd) as Hn.
  destruct u as [ux uy uz], d as [dx dy dz].
  unfold cross, normr in H0; simpl in H0. injection H0 as Hx Hy Hz.
  unfold cross; simpl.
  set (n := norm (V3 dx dy dz)) in *.
  apply vec3_eq.
  - replace (uy * dz - uz * dy) with ((uy * (dz / n) - uz * (dy / n)) * n) by (field; lra).
    rewrite Hx. ring.
  - replace (uz * dx - ux * dz) with ((uz * (dx / n) - ux * (dz / n)) * n) by (field; lra).
    rewrite Hy. ring.
  - replace (ux * dy - uy * dx) with ((ux * (dy / n) - uy * (dx / n)) * n) by (field; lra).
    rewrite Hz. ring.
Qed.

(** The determinant of a projection-shaped matrix times a view-shaped one. *)
Lemma det4_projection_view (a b c d e f : R) (x y z t : vec3) :
  det4 (matmul (M4 (V4 a 0 0 0) (V4 0 b 0 0) (V4 0 0 c d) (V4 0 0 e f))
               (cat_columns_then_row x y z t (V4 0 0 0 1)))
  = a * b * (c * f - d * e) * dot x (cross y z).
Proof.
  destruct x as [x0 x1 x2], y as [y0 y1 y2], z as [z0 z1 z2], t as [t0 t1 t2].
  unfold det4, cofactor, minor, det3, skip, matmul, mk4, dot4, col, row, entry,
    cat_columns_then_row, dot, cross; simpl.
  ring.
Qed.

Lemma basis_triple_product (x z : vec3) :
  dot x (cross (cross z x) z) = dot x x * dot z z - dot x z * dot x z.
Proof. destruct x, z. unfold dot, cross; simpl. ring. Qed.

Lemma view_basis_det (e : CameraExtrinsic) :
  nondegenerate e ->
  let z := normr (direction e) in
  let x := normr (cross (up_vector e) z) in
  dot x (cross (cross z x) z) = 1.
Proof.
  intros [Hd Hc] z x. rewrite basis_triple_product.
  assert (Hz : dot z z = 1) by (apply normr_unit_length; exact Hd).
  assert (Hx : dot x x = 1)
    by (apply normr_unit_length; apply cross_normr_nonzero; assumption).
  assert (Hxz : dot x z = 0) by apply normr_cross_orthogonal.
  rewrite Hz, Hx, Hxz. ring.
Qed.

Lemma valid_camera_invertible (c : Camera) :
  valid_camera c ->
  exists Pm, projection_matrix (intrinsic c) = Ok Pm /\
             det4 (matmul Pm (view_matrix (extrinsic c))) <> 0.
Proof.
  intros (Hv & Hn & Hk).
  destruct (valid_denominators _ Hv) as (Hh & Hat & Ht & Hfn).
  destruct Hv as (Hfov & Hclip & Hw & Hhp).
  pose proof (view_basis_det _ Hn) as Hdet. cbv zeta in Hdet.
  assert (Ha : 1 / (fst (image_size (intrinsic c)) / snd (image_size (intrinsic c))
                    * tan (deg2rad (fov (intrinsic c)) / 2)) <> 0).
  { unfold Rdiv at 1. rewrite Rmult_1_l. apply Rinv_neq_0_compat. exact Hat. }
  assert (Hb : 1 / tan (deg2rad (fov (intrinsic c)) / 2) <> 0).
  { unfold Rdiv. rewrite Rmult_1_l. apply Rinv_neq_0_compat. exact Ht. }
  assert (Hi : / (far (intrinsic c) - near (intrinsic c)) <> 0)
    by (apply Rinv_neq_0_compat; exact Hfn).
  unfold projection_matrix. destruct Hk as [Hk | Hk]; rewrite Hk; simpl String.eqb; cbv iota.
  - eexists. split.
    + apply orthographic_matrix_value. repeat split; assumption || lra.
    + cbv zeta. unfold view_matrix. rewrite det4_projection_view, Hdet.
      rewrite Rmult_1_r, Rmult_0_r, Rminus_0_r, Rmult_1_r.
      apply Rmult_integral_contrapositive_currified.
      * apply Rmult_integral_contrapositive_currified; assumption.
      * unfold Rdiv. apply Rmult_integral_contrapositive_currified; [lra | exact Hi].
  - eexists. split.
    + apply perspective_matrix_value. repeat split; assumption || lra.
    + cbv zeta. unfold view_matrix. rewrite det4_projection_view, Hdet.
      rewrite Rmult_1_r, Rmult_0_r, Rmult_1_r.
      apply Rmult_integral_contrapositive_currified.
      * apply Rmult_integral_contrapositive_currified; assumption.
      * unfold Rminus. rewrite Rplus_0_l. apply Ropp_neq_0_compat.
        unfold Rdiv. apply Rmult_integral_contrapositive_currified; [nra | exact Hi].
Qed.

(** With [pixels=False] the round trip gives back every point set inside
    the frustum of a valid camera. *)
Lemma round_trip_normalized_valid (c : Camera) (P : Tensor) :
  valid_camera c ->
  exists Pm, projection_matrix (intrinsic c) = Ok Pm /\
    (Forall (in_frustum (matmul Pm (view_matrix (extrinsic c)))) P ->
     round_trip c P false = Ok P).
Proof.
  intros Hc. destruct (valid_camera_invertible c Hc) as (Pm & HPm & Hdet).
  exists Pm. split; [exact HPm |].
  intros Hin. apply (round_trip_normalized c P Pm HPm Hdet).
  eapply Forall_impl; [exact Hin |].
  intros p [Hw _]. apply Rgt_not_eq. exact Hw.
Qed.


Lemma sample_point_in_frustum :
  in_frustum (matmul (M4 (V4 1 0 0 0) (V4 0 1 0 0) (V4 0 0 2 (-3)) (V4 0 0 1 0))
                     (view_matrix (extrinsic sample_camera))) (V3 0 0 2).
Proof.
  simpl extrinsic. rewrite view_matrix_default, matmul_identity_r.
  unfold in_frustum, vecmat, cart2homo, transpose, mk4, dot4, col, entry; simpl.
  lra.
Qed.

Lemma sample_round_trip_normalized :
  round_trip sample_camera [V3 0 0 2] false = Ok [V3 0 0 2].
Proof.
  apply (round_trip_normalized sample_camera [V3 0 0 2] _ sample_projection_matrix).
  - simpl extrinsic. rewrite view_matrix_default, matmul_identity_r.
    unfold det4, cofactor, minor, det3, skip, entry; simpl. lra.
  - constructor; [| constructor].
    simpl extrinsic. rewrite view_matrix_default, matmul_identity_r.
    unfold vecmat, cart2homo, transpose, mk4, dot4, col, entry; simpl. lra.
Qed.

(** C1, evaluated on the code: at the sample camera (fov 90, near 1, far 3,
    image 2x2, default pose) and the point (0,0,2) inside its frustum the
    round trip with [pixels=True] raises the unbound local error of
    [unproject] instead of returning the point, while with [pixels=False] it
    returns the point; with [pixels=True] the round trip raises for every
    camera and every point set. *)
Theorem round_trip_pixels_raises :
  round_trip sample_camera [V3 0 0 2] true = Raise (UnboundLocalError "P") /\
  round_trip sample_camera [V3 0 0 2] false = Ok [V3 0 0 2] /\
  (forall (c : Camera) (P : Tensor), exists e : exn, round_trip c P true = Raise e).
Proof.
  split; [| split].
  - unfold round_trip, project. simpl intrinsic.
    rewrite sample_projection_matrix. reflexivity.
  - exact sample_round_trip_normalized.
  - intros c P. unfold round_trip.
    destruct (project c P true) as [Q | e]; simpl rbind.
    + exists (UnboundLocalError "P"). reflexivity.
    + eexists. reflexivity.
Qed.

(** ** Default arguments and sharing *)

Lemma sbind_run {A B : Type} (m : Store.M A) (k : A -> Store.M B)
    (h h' : Store.heap) (a : A) :
  m h = (Ok a, h') -> Store.sbind m k h = k a h'.
Proof. intros H. unfold Store.sbind. rewrite H. reflexivity. Qed.

Lemma new_extrinsic_run (e : CameraExtrinsic) (h : Store.heap) :
  Store.new_extrinsic e h =
    (Ok (Store.next h),
     Store.mkHeap (<[Store.next h := e]> (Store.extrinsics h)) (Store.intrinsics h)
                  (Store.cameras h) (S (Store.next h))).
Proof. reflexivity. Qed.

Lemma new_intrinsic_run (i : CameraIntrinsic) (h : Store.heap) :
  Store.new_intrinsic i h =
    (Ok (Store.next h),
     Store.mkHeap (Store.extrinsics h) (<[Store.next h := i]> (Store.intrinsics h))
                  (Store.cameras h) (S (Store.next h))).
Proof. reflexivity. Qed.

Lemma load_extrinsic_run (l : Store.loc) (h : Store.heap) (e : CameraExtrinsic) :
  Store.extrinsics h !! l = Some e -> Store.load_extrinsic l h = (Ok e, h).
Proof. intros H. unfold Store.load_extrinsic. rewrite H. reflexivity. Qed.

Lemma ext_look_at_run (l : Store.loc) (t : vec3) (h : Store.heap) (e : CameraExtrinsic) :
  Store.extrinsics h !! l = Some e ->
  Store.ext_look_at l t h =
    (Ok l, Store.mkHeap (<[l := look_at e t]> (Store.extrinsics h)) (Store.intrinsics h)
                        (Store.cameras h) (Store.next h)).
Proof.
  intros H. unfold Store.ext_look_at.
  rewrite (sbind_run _ _ _ _ _ (load_extrinsic_run l h e H)). reflexivity.
Qed.

Lemma ext_look_from_run (l : Store.loc) (p : vec3) (h : Store.heap) (e : CameraExtrinsic) :
  Store.extrinsics h !! l = Some e ->
  Store.ext_look_from l p h =
    (Ok l, Store.mkHeap (<[l := look_from e p]> (Store.extrinsics h)) (Store.intrinsics h)
                        (Store.cameras h) (Store.next h)).
Proof.
  intros H. unfold Store.ext_look_from.
  rewrite (sbind_run _ _ _ _ _ (load_extrinsic_run l h e H)). reflexivity.
Qed.

Lemma cam_extrinsic_run (c : Store.loc) (h : Store.heap) (o : Store.CameraObj) :
  Store.cameras h !! c = Some o ->
  Store.cam_extrinsic c h = (Ok (Store.extrinsic_ref o), h).
Proof.
  intros H. unfold Store.cam_extrinsic, Store.sbind, Store.load_camera.
  rewrite H. reflexivity.
Qed.

Lemma fresh_run (h : Store.heap) :
  Store.fresh h =
    (Ok (Store.next h),
     Store.mkHeap (Store.extrinsics h) (Store.intrinsics h) (Store.cameras h)
                  (S (Store.next h))).
Proof. reflexivity. Qed.

Lemma store_camera_run (l : Store.loc) (c : Store.CameraObj) (h : Store.heap) :
  Store.store_camera l c h =
    (Ok tt, Store.mkHeap (Store.extrinsics h) (Store.intrinsics h)
                         (<[l := c]> (Store.cameras h)) (Store.next h)).
Proof. reflexivity. Qed.

Lemma ext_to_run (l : Store.loc) (d : string) (h : Store.heap) (e : CameraExtrinsic) :
  Store.extrinsics h !! l = Some e ->
  Store.ext_to l d h =
    (Ok l, Store.mkHeap (<[l := extrinsic_to e d]> (Store.extrinsics h)) (Store.intrinsics h)
                        (Store.cameras h) (Store.next h)).
Proof.
  intros H. unfold Store.ext_to.
  rewrite (sbind_run _ _ _ _ _ (load_extrinsic_run l h e H)). reflexivity.
Qed.

Lemma int_to_run (l : Store.loc) (d : string) (h : Store.heap) (i : CameraIntrinsic) :
  Store.intrinsics h !! l = Some i ->
  Store.int_to l d h =
    (Ok l, Store.mkHeap (Store.extrinsics h) (<[l := intrinsic_to i d]> (Store.intrinsics h))
                        (Store.cameras h) (Store.next h)).
Proof.
  intros H. unfold Store.int_to, Store.sbind, Store.load_intrinsic.
  rewrite H. reflexivity.
Qed.

(** Building a camera: the new object holds the two references it is given
    (or the defaults), and the device cascade rewrites the two referenced
    objects in place. *)
Lemma new_camera_run (d : Store.defaults) (ext int : option Store.loc) (nm dev : string)
    (h : Store.heap) (e : CameraExtrinsic) (i : CameraIntrinsic) :
  let x := match ext with Some l => l | None => Store.default_extrinsic_ref d end in
  let y := match int with Some l => l | None => Store.default_intrinsic_ref d end in
  Store.extrinsics h !! x = Some e ->
  Store.intrinsics h !! y = Some i ->
  Store.new_camera d ext int nm dev h =
    (Ok (Store.next h),
     Store.mkHeap (<[x := extrinsic_to e dev]> (Store.extrinsics h))
                  (<[y := intrinsic_to i dev]> (Store.intrinsics h))
                  (<[Store.next h := Store.mkCameraObj x y nm dev]> (Store.cameras h))
                  (S (Store.next h))).
Proof.
  intros x y Hx Hy. unfold Store.new_camera. fold x y.
  rewrite (sbind_run _ _ _ _ _ (fresh_run h)).
  rewrite (sbind_run _ _ _ _ _ (store_camera_run _ _ _)).
  erewrite sbind_run by (apply ext_to_run; heap_fields; exact Hx).
  erewrite sbind_run by (apply int_to_run; heap_fields; exact Hy).
  reflexivity.
Qed.

Lemma class_Camera_run (h : Store.heap) :
  Store.class_Camera h =
    (Ok (Store.mkDefaults (Store.next h) (S (Store.next h))),
     Store.mkHeap (<[Store.next h := default_extrinsic]> (Store.extrinsics h))
                  (<[S (Store.next h) := default_intrinsic]> (Store.intrinsics h))
                  (Store.cameras h) (S (S (Store.next h)))).
Proof. reflexivity. Qed.

(** The class body, then two cameras built with the defaults: both hold the
    extrinsic and the intrinsic allocated when the class body ran. *)
Lemma two_default_cameras_run (h : Store.heap) :
  let n := Store.next h in
  Store.sbind Store.class_Camera (fun d =>
    Store.sbind (Store.new_camera d None None "Camera" "cuda:0") (fun a =>
    Store.sbind (Store.new_camera d None None "Camera" "cuda:0") (fun b =>
    Store.ret (d, a, b)))) h =
  (Ok (Store.mkDefaults n (S n), S (S n), S (S (S n))),
   Store.mkHeap
     (<[n := extrinsic_to (extrinsic_to default_extrinsic "cuda:0") "cuda:0"]>
        (<[n := extrinsic_to default_extrinsic "cuda:0"]>
           (<[n := default_extrinsic]> (Store.extrinsics h))))
     (<[S n := intrinsic_to (intrinsic_to default_intrinsic "cuda:0") "cuda:0"]>
        (<[S n := intrinsic_to default_intrinsic "cuda:0"]>
           (<[S n := default_intrinsic]> (Store.intrinsics h))))
     (<[S (S (S n)) := Store.mkCameraObj n (S n) "Camera" "cuda:0"]>
        (<[S (S n) := Store.mkCameraObj n (S n) "Camera" "cuda:0"]> (Store.cameras h)))
     (S (S (S (S n))))).
Proof.
  intros n.
  rewrite (sbind_run _ _ _ _ _ (class_Camera_run h)). cbv beta. fold n.
  erewrite sbind_run
    by (apply new_camera_run; heap_fields; apply lookup_insert_eq).
  cbv beta. heap_fields.
  erewrite sbind_run
    by (apply new_camera_run; heap_fields; apply lookup_insert_eq).
  cbv beta. heap_fields. reflexivity.
Qed.

Ltac run_bind lem :=
  erewrite sbind_run by (apply lem; solve_lookup); cbv beta; heap_fields.

Lemma run_two_default_cameras_look_at (t : vec3) (h : Store.heap) :
  fst (Store.two_default_cameras_look_at t h) = Ok (V3 0 0 0, t, V3 0 1 0).
Proof.
  unfold Store.two_default_cameras_look_at.
  rewrite (sbind_run _ _ _ _ _ (class_Camera_run h)). cbv beta.
  run_bind new_camera_run. run_bind new_camera_run.
  run_bind cam_extrinsic_run. run_bind ext_look_at_run.
  run_bind cam_extrinsic_run. run_bind load_extrinsic_run.
  reflexivity.
Qed.

Lemma run_two_default_cameras_look_from (p : vec3) (h : Store.heap) :
  fst (Store.two_default_cameras_look_from p h) = Ok (p, V3 0 0 1, V3 0 1 0).
Proof.
  unfold Store.two_default_cameras_look_from.
  rewrite (sbind_run _ _ _ _ _ (class_Camera_run h)). cbv beta.
  run_bind new_camera_run. run_bind new_camera_run.
  run_bind cam_extrinsic_run. run_bind ext_look_from_run.
  run_bind cam_extrinsic_run. run_bind load_extrinsic_run.
  reflexivity.
Qed.

Lemma run_two_explicit_cameras_look_at (t : vec3) (h : Store.heap) :
  fst (Store.two_explicit_cameras_look_at t h) = Ok (V3 0 0 0, V3 0 0 1, V3 0 1 0).
Proof.
  unfold Store.two_explicit_cameras_look_at.
  rewrite (sbind_run _ _ _ _ _ (class_Camera_run h)). cbv beta.
  rewrite (sbind_run _ _ _ _ _ (new_extrinsic_run _ _)). cbv beta. heap_fields.
  rewrite (sbind_run _ _ _ _ _ (new_extrinsic_run _ _)). cbv beta. heap_fields.
  run_bind new_camera_run. run_bind new_camera_run.
  run_bind cam_extrinsic_run. run_bind ext_look_at_run.
  run_bind cam_extrinsic_run. run_bind load_extrinsic_run.
  reflexivity.
Qed.

(** C8, evaluated on the code: after [a = Camera(); b = Camera()], both
    built with the default arguments, [a.extrinsic.look_at((1,0,0))] makes
    the target read through [b] (1,0,0) instead of the default (0,0,1), and
    [a.extrinsic.look_from((1,0,0))] makes the position read through [b]
    (1,0,0) instead of (0,0,0): the two cameras hold the one extrinsic built
    when the defaults were evaluated.  Cameras given an extrinsic each are
    not affected. *)
Theorem default_cameras_share_extrinsic :
  fst (Store.two_default_cameras_look_at (V3 1 0 0) Store.empty_heap)
    = Ok (V3 0 0 0, V3 1 0 0, V3 0 1 0) /\
  fst (Store.two_default_cameras_look_from (V3 1 0 0) Store.empty_heap)
    = Ok (V3 1 0 0, V3 0 0 1, V3 0 1 0) /\
  fst (Store.two_explicit_cameras_look_at (V3 1 0 0) Store.empty_heap)
    = Ok (V3 0 0 0, V3 0 0 1, V3 0 1 0) /\
  V3 1 0 0 <> V3 0 0 1.
Proof.
  split; [apply run_two_default_cameras_look_at |].
  split; [apply run_two_default_cameras_look_from |].
  split; [apply run_two_explicit_cameras_look_at |].
  intros H. injection H as H _. lra.
Qed.

(** ** Rig generators *)

Lemma equilateral_polygon_length (n : nat) : length (equilateral_polygon n) = n.
Proof. unfold equilateral_polygon. rewrite length_map, length_seq. reflexivity. Qed.

Lemma equilateral_polygon_4 :
  equilateral_polygon 4 = [V3 1 0 0; V3 0 1 0; V3 (-1) 0 0; V3 0 (-1) 0].
Proof.
  unfold equilateral_polygon. cbn [seq map].
  replace (2 * PI * INR 0 / INR 4) with 0 by (simpl; field).
  replace (2 * PI * INR 1 / INR 4) with (PI / 2) by (simpl; field).
  replace (2 * PI * INR 2 / INR 4) with PI by (simpl; field).
  replace (2 * PI * INR 3 / INR 4) with (3 * (PI / 2)) by (simpl; field).
  rewrite cos_0, sin_0, cos_PI2, sin_PI2, cos_PI, sin_PI, cos_3PI2, sin_3PI2.
  reflexivity.
Qed.

Lemma combine_map_same {A B C : Type} (f : A -> B) (g : A -> C) (l : list A) :
  combine (map f l) (map g l) = map (fun a => (f a, g a)) l.
Proof.
  induction l as [| a l IH]; simpl; [reflexivity | rewrite IH; reflexivity].
Qed.

(** The topology built by the index rule: the chain (k, k+1), k < n-1. *)
Lemma chain_columns (n : nat) :
  cat_columns (indices 0 (Z.of_nat n - 2)) (indices 1 (Z.of_nat n - 1)) =
    Ok (map (fun k => (Z.of_nat k, (Z.of_nat k + 1)%Z)) (seq 0 (n - 1))).
Proof.
  unfold cat_columns, indices.
  replace (Z.to_nat (Z.of_nat n - 2 - 0 + 1)) with (n - 1)%nat by lia.
  replace (Z.to_nat (Z.of_nat n - 1 - 1 + 1)) with (n - 1)%nat by lia.
  rewrite !length_map, Nat.eqb_refl, combine_map_same.
  f_equal. apply map_ext. intros k. f_equal; lia.
Qed.

Lemma camera_n_value (cart2sph : vec3 -> vec3) (n : nat) (d : R) (s : bool) :
  camera_n cart2sph n d s =
    Ok (let P := map (vscale d) (equilateral_polygon n) in
        if s then map cart2sph P else P,
        map (fun k => (Z.of_nat k, (Z.of_nat k + 1)%Z)) (seq 0 (n - 1))).
Proof.
  unfold camera_n. rewrite chain_columns. reflexivity.
Qed.

(** C9: [camera_n(4, camera_distance=1)] returns the 4 positions (1,0,0),
    (0,1,0), (-1,0,0), (0,-1,0), a planar square of circumradius 1 (every
    vertex at distance 1 from the origin with z = 0, consecutive vertices at
    squared distance 2), and exactly the 3 edges (0,1), (1,2), (2,3); for
    every n the generator returns n positions and the n-1 edges (k,k+1),
    k < n-1, so no edge closes the polygon. *)
Theorem camera_n_open_chain :
  forall cart2sph : vec3 -> vec3,
    (exists P : Tensor,
       camera_n cart2sph 4 1 false = Ok (P, [(0, 1); (1, 2); (2, 3)]%Z) /\
       P = [V3 1 0 0; V3 0 1 0; V3 (-1) 0 0; V3 0 (-1) 0] /\
       Forall (fun p => dot p p = 1 /\ vz p = 0) P /\
       Forall (fun pq => dot (vsub (fst pq) (snd pq)) (vsub (fst pq) (snd pq)) = 2)
              (combine P (tl P ++ firstn 1 P))) /\
    (forall (n : nat) (d : R) (s : bool),
       exists (P : Tensor) (E : list (Z * Z)),
         camera_n cart2sph n d s = Ok (P, E) /\
         length P = n /\ length E = (n - 1)%nat /\
         E = map (fun k => (Z.of_nat k, (Z.of_nat k + 1)%Z)) (seq 0 (n - 1)) /\
         (forall a b : Z, In (a, b) E -> b = (a + 1)%Z)).
Proof.
  intros cart2sph. split.
  - exists [V3 1 0 0; V3 0 1 0; V3 (-1) 0 0; V3 0 (-1) 0].
    split; [| split; [| split]].
    + rewrite camera_n_value. cbn [seq map Nat.sub].
      rewrite equilateral_polygon_4. cbn [map]. unfold vscale; simpl.
      repeat f_equal; ring.
    + reflexivity.
    + repeat constructor; unfold dot; simpl; ring.
    + repeat constructor; unfold dot, vsub; simpl; ring.
  - intros n d s. eexists; eexists.
    split; [apply camera_n_value |].
    split; [| split; [| split]].
    + destruct s; rewrite ?length_map; apply equilateral_polygon_length.
    + rewrite length_map, length_seq. reflexivity.
    + reflexivity.
    + intros a b Hin. apply in_map_iff in Hin as (k & Hk & _).
      injection Hk as <- <-. reflexivity.
Qed.

Lemma vadd_zero (v : vec3) : vadd v (V3 0 0 0) = v.
Proof. destruct v as [x y z]. unfold vadd; simpl. apply vec3_eq; ring. Qed.

(** C10: for every position P (a tensor of one row) and every n,
    [bokeh_camera(P, n)] returns n+1 rows; the first is the zero-offset
    image of P, sph2cart(cart2sph(P) + 0) = sph2cart(cart2sph(P)), and the
    other n are the perturbed copies, one per vertex of the scaled
    polygon. *)
Theorem bokeh_camera_anchor :
  forall (cart2sph sph2cart : vec3 -> vec3) (p : vec3) (n : nat) (aperture : R),
    exists rows : Tensor,
      bokeh_camera cart2sph sph2cart [p] n aperture = Ok rows /\
      length rows = S n /\
      hd_error rows = Some (sph2cart (vadd (cart2sph p) (V3 0 0 0))) /\
      hd_error rows = Some (sph2cart (cart2sph p)) /\
      tl rows = map (fun q => sph2cart (vadd (cart2sph p) (permute_201 (vscale aperture q))))
                    (equilateral_polygon n).
Proof.
  intros cart2sph sph2cart p n aperture. eexists.
  split; [reflexivity |].
  split; [| split; [| split]].
  - rewrite !length_map, length_app. unfold zeros_like.
    rewrite !length_map, equilateral_polygon_length. reflexivity.
  - reflexivity.
  - unfold zeros_like. cbn [map app hd_error permute_201 vx vy vz].
    rewrite vadd_zero. reflexivity.
  - unfold zeros_like. cbn [map app tl]. rewrite !map_map. reflexivity.
Qed.

(** * Further properties of the camera module *)

(** ** Projection and unprojection *)



Lemma frustum_ratio (x w : R) : 0 < w -> - w <= x <= w -> -1 <= x / w <= 1.
Proof.
  intros Hw [Hlo Hhi].
  assert (Hx : x / w * w = x) by (field; lra).
  split.
  - apply Rmult_le_reg_r with w; [exact Hw |]. rewrite Hx. lra.
  - apply Rmult_le_reg_r with w; [exact Hw |]. rewrite Hx. lra.
Qed.

Lemma ndc_in_cube (PV : mat4) (p : vec3) :
  in_frustum PV p ->
  -1 <= vx (ndc PV p) <= 1 /\ -1 <= vy (ndc PV p) <= 1 /\ -1 <= vz (ndc PV p) <= 1.
Proof.
  intros (Hw & Hx & Hy & Hz). unfold ndc, homo2cart. cbn [vx vy vz].
  repeat split; apply frustum_ratio; assumption.
Qed.

(** X3: a point inside the frustum is projected into the image: with
    [pixels=False] every coordinate of the result lies in [0,1]; with
    [pixels=True], for an image of at least one pixel each way, u lies in
    [0, width-1], v in [0, height-1] and the depth in [0,1]. *)
Theorem project_in_range :
  forall (c : Camera) (P : Tensor) (Pm : mat4),
    projection_matrix (intrinsic c) = Ok Pm ->
    Forall (in_frustum (matmul Pm (view_matrix (extrinsic c)))) P ->
    (exists Q, project c P false = Ok Q /\
       Forall (fun q => 0 <= vx q <= 1 /\ 0 <= vy q <= 1 /\ 0 <= vz q <= 1) Q) /\
    (1 <= fst (image_size (intrinsic c)) -> 1 <= snd (image_size (intrinsic c)) ->
     exists Q, project c P true = Ok Q /\
       Forall (fun q => 0 <= vx q <= fst (image_size (intrinsic c)) - 1 /\
                        0 <= vy q <= snd (image_size (intrinsic c)) - 1 /\
                        0 <= vz q <= 1) Q).
Proof.
  intros c P Pm HPm Hin. split.
  - unfold project. rewrite HPm. simpl rbind. eexists. split; [reflexivity |].
    rewrite map_map. apply Forall_map.
    eapply Forall_impl; [exact Hin |].
    intros p Hp. destruct (ndc_in_cube _ _ Hp) as (Hx & Hy & Hz).
    unfold ndc in Hx, Hy, Hz. unfold vadd, vmul, splat. cbn [vx vy vz]. lra.
  - intros Hwd Hht. unfold project. rewrite HPm. simpl rbind.
    eexists. split; [reflexivity |].
    rewrite map_map. apply Forall_map.
    eapply Forall_impl; [exact Hin |].
    intros p Hp. destruct (ndc_in_cube _ _ Hp) as (Hx & Hy & Hz).
    unfold ndc in Hx, Hy, Hz. unfold vadd, vmul, splat. cbn [vx vy vz].
    set (W := fst (image_size (intrinsic c)) - 1).
    set (H := snd (image_size (intrinsic c)) - 1).
    assert (HW : 0 <= W) by (unfold W; lra).
    assert (HH : 0 <= H) by (unfold H; lra).
    repeat split; nra.
Qed.

(** X3 at the sample camera and the point (0,0,2). *)
Lemma project_in_range_witness :
  exists Q, project sample_camera [V3 0 0 2] false = Ok Q /\
    Forall (fun q => 0 <= vx q <= 1 /\ 0 <= vy q <= 1 /\ 0 <= vz q <= 1) Q.
Proof.
  refine (proj1 (project_in_range sample_camera [V3 0 0 2] _ sample_projection_matrix _)).
  constructor; [exact sample_point_in_frustum | constructor].
Defined.

(** X4: [project] fails exactly when [projection_matrix] fails, with the
    same exception, whatever the points and the pixel mode are (an empty
    point set does not avoid it); when the matrix is available an empty
    point set gives an empty result.  [unproject] with [pixels=False]
    passes the same exception on before it tries to invert anything. *)
Theorem project_raises_with_projection_matrix :
  forall (c : Camera) (e : exn),
    (forall (P : Tensor) (b : bool),
       project c P b = Raise e <-> projection_matrix (intrinsic c) = Raise e) /\
    (forall (b : bool) (Pm : mat4),
       projection_matrix (intrinsic c) = Ok Pm -> project c [] b = Ok []) /\
    (forall UVd : Tensor,
       projection_matrix (intrinsic c) = Raise e -> unproject c UVd false = Raise e).
Proof.
  intros c e. split; [| split].
  - intros P b. unfold project.
    destruct (projection_matrix (intrinsic c)) as [Pm | e']; simpl rbind.
    + split; discriminate.
    + split; intros H; injection H as ->; reflexivity.
  - intros b Pm HPm. unfold project. rewrite HPm. reflexivity.
  - intros UVd HPm. unfold unproject. simpl rbind. rewrite HPm. reflexivity.
Qed.

(** X4 at a camera with an unknown projection kind: [project] raises the
    ValueError on an empty point set. *)
Lemma project_raises_with_projection_matrix_witness :
  project (mkCamera default_extrinsic (sample_intrinsic "fisheye") "Camera" "cuda:0")
          [] true = Raise (ValueError "Unknown projection type.").
Proof.
  apply (proj1 (project_raises_with_projection_matrix
                  (mkCamera default_extrinsic (sample_intrinsic "fisheye") "Camera" "cuda:0")
                  (ValueError "Unknown projection type.")) [] true).
  reflexivity.
Defined.

(** X5: the two pixel modes of [project] differ by a per-axis factor: the
    pixel coordinates are the normalised ones times (width-1, height-1),
    and the depth is the same in both modes. *)
Theorem project_pixels_scale_normalized :
  forall (c : Camera) (P Q : Tensor),
    project c P false = Ok Q ->
    project c P true =
      Ok (map (fun q => V3 (vx q * (fst (image_size (intrinsic c)) - 1))
                           (vy q * (snd (image_size (intrinsic c)) - 1))
                           (vz q)) Q).
Proof.
  intros c P Q. unfold project.
  destruct (projection_matrix (intrinsic c)) as [Pm | e]; simpl rbind; [| discriminate].
  intros H. injection H as <-. f_equal. rewrite !map_map.
  apply map_ext. intros p. unfold vadd, vmul, splat. cbn [vx vy vz].
  apply vec3_eq; ring.
Qed.

Lemma sample_project_normalized :
  project sample_camera [V3 0 0 2] false = Ok [V3 (1 / 2) (1 / 2) (3 / 4)].
Proof.
  unfold project. simpl intrinsic. rewrite sample_projection_matrix. simpl rbind.
  simpl extrinsic. rewrite view_matrix_default, matmul_identity_r.
  unfold homo2cart, vecmat, cart2homo, transpose, mk4, dot4, col, entry, vadd, vmul, splat;
    simpl.
  do 2 f_equal. apply vec3_eq; field.
Qed.

(** X5 at the sample camera (image 2x2) and the point (0,0,2). *)
Lemma project_pixels_scale_normalized_witness :
  project sample_camera [V3 0 0 2] true =
    Ok [V3 (1 / 2 * (2 - 1)) (1 / 2 * (2 - 1)) (3 / 4)].
Proof.
  exact (project_pixels_scale_normalized sample_camera [V3 0 0 2] _
           sample_project_normalized).
Defined.

(** ** The projection matrices *)

(** X7: for every intrinsic of the data model both projection matrices send
    the near plane to depth -1 and the far plane to depth +1 in normalised
    device coordinates, whatever the other two coordinates of the point
    are. *)
Theorem clip_planes_to_unit_depth :
  forall (i : CameraIntrinsic) (Pm : mat4),
    valid_intrinsic i ->
    orthographic_matrix i = Ok Pm \/ perspective_matrix i = Ok Pm ->
    forall x y : R,
      vz (ndc Pm (V3 x y (near i))) = -1 /\ vz (ndc Pm (V3 x y (far i))) = 1.
Proof.
  intros i Pm Hv HPm x y.
  destruct Hv as (Hfov & Hclip & Hw & Hh).
  assert (Hval : valid_intrinsic i) by (repeat split; lra).
  destruct HPm as [HPm | HPm].
  - rewrite (orthographic_matrix_value i Hval) in HPm. injection HPm as <-.
    unfold ndc, homo2cart, vecmat, cart2homo, transpose, mk4, dot4, col, entry; simpl.
    split; field; lra.
  - rewrite (perspective_matrix_value i Hval) in HPm. injection HPm as <-.
    unfold ndc, homo2cart, vecmat, cart2homo, transpose, mk4, dot4, col, entry; simpl.
    split; field; lra.
Qed.

(** X7 at the sample intrinsic (near 1, far 3) and the axis point. *)
Lemma clip_planes_to_unit_depth_witness :
  vz (ndc (M4 (V4 1 0 0 0) (V4 0 1 0 0) (V4 0 0 2 (-3)) (V4 0 0 1 0)) (V3 0 0 1)) = -1 /\
  vz (ndc (M4 (V4 1 0 0 0) (V4 0 1 0 0) (V4 0 0 2 (-3)) (V4 0 0 1 0)) (V3 0 0 3)) = 1.
Proof.
  apply (clip_planes_to_unit_depth (sample_intrinsic "perspective") _
           (sample_intrinsic_valid "perspective")
           (or_intror sample_projection_matrix) 0 0).
Defined.

(** ** The view basis *)

Lemma cross_self_length (z x : vec3) :
  dot (cross z x) (cross z x) = dot z z * dot x x - dot z x * dot z x.
Proof. destruct z, x. unfold dot, cross; simpl. ring. Qed.

Lemma cross_orthogonal_l (a b : vec3) : dot (cross a b) a = 0.
Proof. destruct a, b. unfold dot, cross; simpl. ring. Qed.

Lemma dot_comm (a b : vec3) : dot a b = dot b a.
Proof. destruct a, b. unfold dot; simpl. ring. Qed.

Lemma det4_view_shape (x y z t : vec3) :
  det4 (cat_columns_then_row x y z t (V4 0 0 0 1)) = dot x (cross y z).
Proof.
  destruct x as [x0 x1 x2], y as [y0 y1 y2], z as [z0 z1 z2], t as [t0 t1 t2].
  unfold det4, cofactor, minor, det3, skip, entry, cat_columns_then_row, dot, cross; simpl.
  ring.
Qed.

(** X8: for a pose that is not degenerate the three basis columns of the
    view matrix are orthonormal (unit length, pairwise orthogonal), and the
    determinant of the view matrix is 1. *)
Theorem view_matrix_orthonormal :
  forall e : CameraExtrinsic,
    nondegenerate e ->
    (forall a b : nat, (a < 3)%nat -> (b < 3)%nat ->
       dot4 (col (view_matrix e) a) (col (view_matrix e) b) = if (a =? b)%nat then 1 else 0) /\
    det4 (view_matrix e) = 1.
Proof.
  intros e Hn. pose proof Hn as [Hd Hc].
  set (z := normr (direction e)).
  set (x := normr (cross (up_vector e) z)).
  set (y := cross z x).
  assert (Hz : dot z z = 1) by (apply normr_unit_length; exact Hd).
  assert (Hx : dot x x = 1)
    by (apply normr_unit_length; apply cross_normr_nonzero; assumption).
  assert (Hxz : dot x z = 0) by apply normr_cross_orthogonal.
  assert (Hzx : dot z x = 0) by (rewrite dot_comm; exact Hxz).
  assert (Hy : dot y y = 1).
  { unfold y. rewrite cross_self_length, Hz, Hx, Hzx. ring. }
  assert (Hyz : dot y z = 0) by apply cross_orthogonal_l.
  assert (Hyx : dot y x = 0) by apply cross_orthogonal_r.
  assert (Hxy : dot x y = 0) by (rewrite dot_comm; exact Hyx).
  assert (Hzy : dot z y = 0) by (rewrite dot_comm; exact Hyz).
  assert (Hdot : forall u v : vec3,
             dot4 (V4 (vx u) (vy u) (vz u) 0) (V4 (vx v) (vy v) (vz v) 0) = dot u v).
  { intros u v. unfold dot4, dot; simpl. ring. }
  split.
  - intros a b Ha Hb.
    destruct a as [| [| [| ?]]]; try lia; destruct b as [| [| [| ?]]]; try lia;
      cbn [Nat.eqb];
      change (view_matrix e) with (cat_columns_then_row x y z (vneg (position e)) (V4 0 0 0 1));
      unfold col, entry, cat_columns_then_row; cbn [row vget r0 r1 r2 r3 h0 h1 h2 h3];
      rewrite Hdot; assumption.
  - change (view_matrix e) with (cat_columns_then_row x y z (vneg (position e)) (V4 0 0 0 1)).
    rewrite det4_view_shape. exact (view_basis_det e Hn).
Qed.

(** X8 at the side pose: the first two basis columns are orthogonal. *)
Lemma view_matrix_orthonormal_witness :
  dot4 (col (view_matrix side_extrinsic) 0) (col (view_matrix side_extrinsic) 1) = 0.
Proof.
  apply (proj1 (view_matrix_orthonormal side_extrinsic side_extrinsic_nondegenerate)
           0%nat 1%nat); lia.
Defined.

Lemma norm_scale (k : R) (v : vec3) : 0 <= k -> norm (vscale k v) = k * norm v.
Proof.
  intros Hk. unfold norm.
  replace (dot (vscale k v) (vscale k v)) with (k * k * dot v v)
    by (destruct v; unfold dot, vscale; simpl; ring).
  rewrite sqrt_mult.
  - rewrite sqrt_square by exact Hk. reflexivity.
  - nra.
  - destruct v as [a b c]. unfold dot; simpl. nra.
Qed.

Lemma normr_scale (k : R) (v : vec3) :
  0 < k -> v <> V3 0 0 0 -> normr (vscale k v) = normr v.
Proof.
  intros Hk Hv. pose proof (norm_pos v Hv) as Hn.
  unfold normr. rewrite norm_scale by lra.
  destruct v as [a b c]. unfold vscale; cbn [vx vy vz].
  set (n := norm (V3 a b c)) in *.
  apply vec3_eq; field; lra.
Qed.

(** X9: the view matrix depends on the target only through the viewing ray:
    moving the target to any point [position + k * direction] with k > 0
    leaves [view_matrix] unchanged. *)
Theorem view_matrix_along_ray :
  forall (e : CameraExtrinsic) (k : R),
    0 < k -> direction e <> V3 0 0 0 ->
    view_matrix (look_at e (vadd (position e) (vscale k (direction e)))) = view_matrix e.
Proof.
  intros e k Hk Hd.
  assert (Hdir : direction (look_at e (vadd (position e) (vscale k (direction e))))
                 = vscale k (direction e)).
  { unfold direction, look_at, vsub, vadd, vscale. cbn [position target vx vy vz].
    apply vec3_eq; ring. }
  unfold view_matrix. rewrite Hdir, (normr_scale k _ Hk Hd). reflexivity.
Qed.

(** X9 at the default pose: a target twice as far along the Z axis. *)
Lemma view_matrix_along_ray_witness :
  view_matrix (look_at default_extrinsic
                 (vadd (position default_extrinsic) (vscale 2 (direction default_extrinsic))))
  = view_matrix default_extrinsic.
Proof.
  apply (view_matrix_along_ray default_extrinsic 2).
  - lra.
  - unfold direction, default_extrinsic, vsub; simpl. intros H. injection H as H. lra.
Defined.

(** ** Pose and device changes on the store *)

(** X10: [look_from] and [look_at] return the object itself, so they chain;
    [e.look_from(p).look_at(t)] and [e.look_at(t).look_from(p)] leave the
    same store: position [p], target [t], up vector and device as before,
    every other object untouched, and the direction read afterwards is
    [t - p]. *)
Theorem look_from_look_at_chain :
  forall (h : Store.heap) (l : Store.loc) (e : CameraExtrinsic) (p t : vec3),
    Store.extrinsics h !! l = Some e ->
    let h' := Store.mkHeap
                (<[l := mkExtrinsic p t (up_vector e) (ext_device e)]> (Store.extrinsics h))
                (Store.intrinsics h) (Store.cameras h) (Store.next h) in
    Store.sbind (Store.ext_look_from l p) (fun r => Store.ext_look_at r t) h = (Ok l, h') /\
    Store.sbind (Store.ext_look_at l t) (fun r => Store.ext_look_from r p) h = (Ok l, h') /\
    (forall l' : Store.loc, l' <> l -> Store.extrinsics h' !! l' = Store.extrinsics h !! l') /\
    Store.sbind (Store.load_extrinsic l) (fun e' => Store.ret (direction e')) h'
      = (Ok (vsub t p), h').
Proof.
  intros h l e p t He h'. split; [| split; [| split]].
  - rewrite (sbind_run _ _ _ _ _ (ext_look_from_run l p h e He)).
    erewrite ext_look_at_run by (heap_fields; apply lookup_insert_eq).
    heap_fields. rewrite insert_insert_eq. reflexivity.
  - rewrite (sbind_run _ _ _ _ _ (ext_look_at_run l t h e He)).
    erewrite ext_look_from_run by (heap_fields; apply lookup_insert_eq).
    heap_fields. rewrite insert_insert_eq. reflexivity.
  - intros l' Hl. unfold h'. heap_fields. apply lookup_insert_ne. congruence.
  - erewrite sbind_run by (apply load_extrinsic_run; unfold h'; heap_fields;
                           apply lookup_insert_eq).
    reflexivity.
Qed.

(** X10 on a store holding the default extrinsic at location 0. *)
Lemma look_from_look_at_chain_witness :
  Store.sbind (Store.ext_look_from 0%nat (V3 1 0 0))
              (fun r => Store.ext_look_at r (V3 2 0 0))
              (Store.mkHeap (<[0%nat := default_extrinsic]> ∅) ∅ ∅ 1%nat)
  = (Ok 0%nat,
     Store.mkHeap
       (<[0%nat := mkExtrinsic (V3 1 0 0) (V3 2 0 0) (V3 0 1 0) "cuda:0"]>
          (<[0%nat := default_extrinsic]> ∅)) ∅ ∅ 1%nat).
Proof.
  exact (proj1 (look_from_look_at_chain
                  (Store.mkHeap (<[0%nat := default_extrinsic]> ∅) ∅ ∅ 1%nat)
                  0%nat default_extrinsic (V3 1 0 0) (V3 2 0 0)
                  (lookup_insert_eq _ _ _))).
Defined.

Lemma load_camera_run (c : Store.loc) (h : Store.heap) (o : Store.CameraObj) :
  Store.cameras h !! c = Some o -> Store.load_camera c h = (Ok o, h).
Proof. intros H. unfold Store.load_camera. rewrite H. reflexivity. Qed.

Lemma heap_eta (h : Store.heap) :
  Store.mkHeap (Store.extrinsics h) (Store.intrinsics h) (Store.cameras h) (Store.next h) = h.
Proof. destruct h. reflexivity. Qed.

Lemma extrinsic_to_kwargs_run (l : Store.loc) (kw : option string) (h : Store.heap)
    (e : CameraExtrinsic) :
  Store.extrinsics h !! l = Some e ->
  Retarget.extrinsic_to_kwargs l kw h =
    (Ok l,
     Store.mkHeap
       (<[l := match kw with Some d => extrinsic_to e d | None => e end]> (Store.extrinsics h))
       (Store.intrinsics h) (Store.cameras h) (Store.next h)).
Proof.
  intros H. unfold Retarget.extrinsic_to_kwargs.
  rewrite (sbind_run _ _ _ _ _ (load_extrinsic_run l h e H)). reflexivity.
Qed.

(** X11: [Camera.to(device=d)] returns the camera and leaves the tag [d] on
    the camera and on the extrinsic and the intrinsic it refers to; poses,
    projection parameters, hence both matrices, are unchanged.  Without the
    key 'device' the call leaves the store as it was. *)
Theorem camera_to_cascades :
  forall (h : Store.heap) (c : Store.loc) (o : Store.CameraObj)
         (e : CameraExtrinsic) (i : CameraIntrinsic) (d : string),
    Store.cameras h !! c = Some o ->
    Store.extrinsics h !! Store.extrinsic_ref o = Some e ->
    Store.intrinsics h !! Store.intrinsic_ref o = Some i ->
    Retarget.camera_to c (Some d) h =
      (Ok c,
       Store.mkHeap
         (<[Store.extrinsic_ref o := extrinsic_to e d]> (Store.extrinsics h))
         (<[Store.intrinsic_ref o := intrinsic_to i d]> (Store.intrinsics h))
         (<[c := Store.mkCameraObj (Store.extrinsic_ref o) (Store.intrinsic_ref o)
                   (Store.obj_name o) d]> (Store.cameras h))
         (Store.next h)) /\
    position (extrinsic_to e d) = position e /\
    target (extrinsic_to e d) = target e /\
    up_vector (extrinsic_to e d) = up_vector e /\
    view_matrix (extrinsic_to e d) = view_matrix e /\
    projection_matrix (intrinsic_to i d) = projection_matrix i /\
    Retarget.camera_to c None h = (Ok c, h).
Proof.
  intros h c o e i d Hc He Hi.
  split; [| repeat split].
  - unfold Retarget.camera_to.
    rewrite (sbind_run _ _ _ _ _ (load_camera_run c h o Hc)). cbv beta iota.
    assert (Hcascade :
      Store.sbind
        (Store.store_camera c
           (Store.mkCameraObj (Store.extrinsic_ref o) (Store.intrinsic_ref o)
              (Store.obj_name o) d))
        (fun _ => Store.sbind (Store.ext_to (Store.extrinsic_ref o) d)
                    (fun _ => Store.int_to (Store.intrinsic_ref o) d)) h
      = (Ok (Store.intrinsic_ref o),
         Store.mkHeap
           (<[Store.extrinsic_ref o := extrinsic_to e d]> (Store.extrinsics h))
           (<[Store.intrinsic_ref o := intrinsic_to i d]> (Store.intrinsics h))
           (<[c := Store.mkCameraObj (Store.extrinsic_ref o) (Store.intrinsic_ref o)
                     (Store.obj_name o) d]> (Store.cameras h))
           (Store.next h))).
    { rewrite (sbind_run _ _ _ _ _ (store_camera_run _ _ _)).
      erewrite sbind_run by (apply ext_to_run; heap_fields; exact He).
      erewrite int_to_run by (heap_fields; exact Hi).
      reflexivity. }
    rewrite (sbind_run _ _ _ _ _ Hcascade). cbv beta.
    erewrite sbind_run
      by (apply extrinsic_to_kwargs_run; heap_fields; apply lookup_insert_eq).
    cbv beta. unfold Retarget.intrinsic_to_kwargs.
    erewrite sbind_run by (apply int_to_run; heap_fields; apply lookup_insert_eq).
    unfold Store.ret. heap_fields. rewrite !insert_insert_eq. reflexivity.
  - unfold Retarget.camera_to.
    rewrite (sbind_run _ _ _ _ _ (load_camera_run c h o Hc)). cbv beta iota.
    unfold Store.ret at 1. unfold Store.sbind at 1.
    rewrite (sbind_run _ _ _ _ _ (extrinsic_to_kwargs_run _ None h e He)). cbv beta.
    unfold Retarget.intrinsic_to_kwargs, Store.sbind, Store.ret. heap_fields.
    rewrite (insert_id _ _ _ He), heap_eta. reflexivity.
Qed.

(** X11 on a store with one camera at location 2 over the default extrinsic
    (location 0) and intrinsic (location 1). *)
Lemma camera_to_cascades_witness :
  Retarget.camera_to 2%nat (Some "cpu"%string)
    (Store.mkHeap (<[0%nat := default_extrinsic]> ∅) (<[1%nat := default_intrinsic]> ∅)
                  (<[2%nat := Store.mkCameraObj 0%nat 1%nat "Camera" "cuda:0"]> ∅) 3%nat)
  = (Ok 2%nat,
     Store.mkHeap
       (<[0%nat := extrinsic_to default_extrinsic "cpu"]> (<[0%nat := default_extrinsic]> ∅))
       (<[1%nat := intrinsic_to default_intrinsic "cpu"]> (<[1%nat := default_intrinsic]> ∅))
       (<[2%nat := Store.mkCameraObj 0%nat 1%nat "Camera" "cpu"]>
          (<[2%nat := Store.mkCameraObj 0%nat 1%nat "Camera" "cuda:0"]> ∅)) 3%nat).
Proof.
  exact (proj1 (camera_to_cascades
                  (Store.mkHeap (<[0%nat := default_extrinsic]> ∅)
                     (<[1%nat := default_intrinsic]> ∅)
                     (<[2%nat := Store.mkCameraObj 0%nat 1%nat "Camera" "cuda:0"]> ∅) 3%nat)
                  2%nat (Store.mkCameraObj 0%nat 1%nat "Camera" "cuda:0")
                  default_extrinsic default_intrinsic "cpu"
                  (lookup_insert_eq _ _ _) (lookup_insert_eq _ _ _) (lookup_insert_eq _ _ _))).
Defined.

(** ** Rigs *)

Lemma tilt_preserves_length (theta : R) (u : vec3) :
  dot (row_mm_transpose u (tilt theta)) (row_mm_transpose u (tilt theta)) = dot u u.
Proof.
  pose proof (sin2_cos2 theta) as H. unfold Rsqr in H.
  destruct u as [a b c]. unfold row_mm_transpose, tilt, dot; cbn [m0 m1 m2 vx vy vz].
  transitivity (a * a + (sin theta * sin theta + cos theta * cos theta) * (b * b + c * c)).
  - ring.
  - rewrite H. ring.
Qed.

(** X12: [camera_from_polyhedron] puts one camera per vertex of the
    polyhedron, each on the sphere of radius |camera_distance| about the
    origin (squared length camera_distance^2) when the vertex is not the
    origin and the positions stay cartesian; the edges do not depend on the
    distance or on the coordinate system asked for. *)
Theorem camera_from_polyhedron_on_sphere :
  forall (Topology : Type) (poly2edge_of : Topology -> list (Z * Z) * list Z)
         (cart2sph : vec3 -> vec3) (poly : Tensor * Topology) (d : R),
    Forall (fun v => v <> V3 0 0 0) (fst poly) ->
    Forall (fun p => dot p p = d * d)
           (fst (camera_from_polyhedron Topology poly2edge_of cart2sph poly d false)) /\
    (forall s : bool,
       length (fst (camera_from_polyhedron Topology poly2edge_of cart2sph poly d s))
       = length (fst poly)) /\
    (forall (d' : R) (s s' : bool),
       snd (camera_from_polyhedron Topology poly2edge_of cart2sph poly d s)
       = snd (camera_from_polyhedron Topology poly2edge_of cart2sph poly d' s')).
Proof.
  intros Topology poly2edge_of cart2sph poly d Hv. split; [| split].
  - unfold camera_from_polyhedron. cbn [fst]. apply Forall_map.
    eapply Forall_impl; [exact Hv |].
    intros v Hne.
    replace (dot (vscale d (row_mm_transpose (normr v) (tilt (PI / 100))))
                 (vscale d (row_mm_transpose (normr v) (tilt (PI / 100)))))
      with (d * d * dot (row_mm_transpose (normr v) (tilt (PI / 100)))
                        (row_mm_transpose (normr v) (tilt (PI / 100)))).
    + rewrite tilt_preserves_length, (normr_unit_length v Hne). ring.
    + generalize (row_mm_transpose (normr v) (tilt (PI / 100))). intros [a b c].
      unfold dot, vscale; simpl. ring.
  - intros s. unfold camera_from_polyhedron. cbn [fst].
    destruct s; rewrite ?length_map; reflexivity.
  - intros d' s s'. reflexivity.
Qed.

(** X12 at the six vertices of an octahedron, distance 2. *)
Lemma camera_from_polyhedron_on_sphere_witness :
  Forall (fun p => dot p p = 2 * 2)
         (fst (camera_from_polyhedron unit (fun _ => ([], [])) (fun p => p)
                 sample_octahedron 2 false)).
Proof.
  apply (proj1 (camera_from_polyhedron_on_sphere unit (fun _ => ([], [])) (fun p => p)
                  sample_octahedron 2
                  ltac:(unfold sample_octahedron; cbn [fst];
                        repeat constructor; intros H; injection H; intros; lra))).
Defined.

Lemma broadcast_add_shapes (A B : Tensor) :
  (exists Q, broadcast_add A B = Ok Q) <->
  (length A = 1 \/ length B = 1 \/ length A = length B)%nat.
Proof.
  unfold broadcast_add.
  destruct A as [| a [| a' A']]; destruct B as [| b [| b' B']]; cbn [length];
    try (split; [intros _; lia | intros _; eexists; reflexivity]).
  - destruct (Nat.eqb_spec 0 (S (S (length B')))) as [E | N].
    + lia.
    + split; [intros [Q HQ]; discriminate | lia].
  - destruct (Nat.eqb_spec (S (S (length A'))) 0) as [E | N].
    + lia.
    + split; [intros [Q HQ]; discriminate | lia].
  - destruct (Nat.eqb_spec (S (S (length A'))) (S (S (length B')))) as [E | N].
    + split; [intros _; lia | intros _; eexists; reflexivity].
    + split; [intros [Q HQ]; discriminate | lia].
Qed.

Lemma broadcast_add_raises (A B : Tensor) (e : exn) :
  broadcast_add A B = Raise e -> exists msg, e = RuntimeError msg.
Proof.
  unfold broadcast_add.
  destruct A as [| a [| a' A']]; destruct B as [| b [| b' B']]; try discriminate;
    repeat match goal with
           | |- context [(?x =? ?y)%nat] => destruct (x =? y)%nat
           end;
    try discriminate; intros H; injection H as <-; eexists; reflexivity.
Qed.

(** X13: [bokeh_camera] returns exactly when the shapes broadcast: for a
    single row [P] (the documented shape), for [n = 0], or for an empty [P]
    with [n = 1]; in particular a [P] of two or more rows raises as soon as
    [n >= 1]. *)
Theorem bokeh_camera_shapes :
  forall (cart2sph sph2cart : vec3 -> vec3) (P : Tensor) (n : nat) (aperture : R),
    ((exists Q, bokeh_camera cart2sph sph2cart P n aperture = Ok Q) <->
     (length P = 1 \/ n = 0 \/ (length P = 0 /\ n = 1))%nat) /\
    ((2 <= length P)%nat -> (1 <= n)%nat ->
     exists msg, bokeh_camera cart2sph sph2cart P n aperture = Raise (RuntimeError msg)).
Proof.
  intros cart2sph sph2cart P n aperture.
  assert (Hiff : (exists Q, bokeh_camera cart2sph sph2cart P n aperture = Ok Q) <->
                 (length P = 1 \/ n = 0 \/ (length P = 0 /\ n = 1))%nat).
  { unfold bokeh_camera.
    set (A := map cart2sph P).
    set (B := map permute_201
                (zeros_like P ++ map (vscale aperture) (equilateral_polygon n))).
    assert (HA : length A = length P) by (unfold A; apply length_map).
    assert (HB : length B = (length P + n)%nat).
    { unfold B, zeros_like.
      rewrite length_map, length_app, !length_map, equilateral_polygon_length.
      reflexivity. }
    pose proof (broadcast_add_shapes A B) as Hs. rewrite HA, HB in Hs.
    split.
    - intros [Q HQ]. destruct (broadcast_add A B) as [S |] eqn:E; [| discriminate].
      assert (Hok : exists Q', Ok S = Ok Q') by (eexists; reflexivity).
      apply Hs in Hok. lia.
    - intros H.
      assert (Hok : exists Q', broadcast_add A B = Ok Q') by (apply Hs; lia).
      destruct Hok as [S ->]. eexists. reflexivity. }
  split; [exact Hiff |].
  intros HP Hn.
  destruct (bokeh_camera cart2sph sph2cart P n aperture) as [Q | e] eqn:E.
  - assert (Hok : exists Q', Ok Q = Ok Q') by (eexists; reflexivity).
    apply Hiff in Hok. lia.
  - unfold bokeh_camera in E.
    destruct (broadcast_add _ _) as [S | e'] eqn:EB; simpl rbind in E; [discriminate |].
    injection E as <-.
    destruct (broadcast_add_raises _ _ _ EB) as [msg ->]. exists msg. reflexivity.
Qed.

(** X13 at a two-row [P] and [n = 4]. *)
Lemma bokeh_camera_shapes_witness :
  exists msg,
    bokeh_camera (fun p => p) (fun p => p) [V3 1 0 0; V3 0 1 0] 4 (PI / 16)
    = Raise (RuntimeError msg).
Proof.
  apply (proj2 (bokeh_camera_shapes (fun p => p) (fun p => p)
                  [V3 1 0 0; V3 0 1 0] 4 (PI / 16))); simpl; lia.
Defined.

(** ** Devices of cameras built with the defaults *)

(** X14: the device given to [Camera(...)] is pushed onto the extrinsic and
    the intrinsic the camera refers to, and cameras built with the default
    arguments refer to the same two objects: after
    [a = Camera(device=da); b = Camera(device=db)] the camera [a] still
    carries [da], while [a.extrinsic.device] and [a.intrinsic.device] are
    [db], on every store the class body runs on. *)
Theorem default_cameras_share_device :
  forall (h : Store.heap) (da db : string),
    exists (a b : Store.loc) (h' : Store.heap) (oa ob : Store.CameraObj)
           (e : CameraExtrinsic) (i : CameraIntrinsic),
      Store.sbind Store.class_Camera (fun d =>
        Store.sbind (Store.new_camera d None None "Camera" da) (fun a =>
        Store.sbind (Store.new_camera d None None "Camera" db) (fun b =>
        Store.ret (a, b)))) h = (Ok (a, b), h') /\
      a <> b /\
      Store.cameras h' !! a = Some oa /\ Store.cameras h' !! b = Some ob /\
      Store.obj_device oa = da /\ Store.obj_device ob = db /\
      Store.extrinsic_ref oa = Store.extrinsic_ref ob /\
      Store.intrinsic_ref oa = Store.intrinsic_ref ob /\
      Store.extrinsics h' !! Store.extrinsic_ref oa = Some e /\ ext_device e = db /\
      Store.intrinsics h' !! Store.intrinsic_ref oa = Some i /\ int_device i = db.
Proof.
  intros h da db. set (n := Store.next h).
  exists (S (S n)), (S (S (S n))).
  eexists. exists (Store.mkCameraObj n (S n) "Camera" da),
             (Store.mkCameraObj n (S n) "Camera" db).
  exists (extrinsic_to (extrinsic_to default_extrinsic da) db),
         (intrinsic_to (intrinsic_to default_intrinsic da) db).
  split.
  - rewrite (sbind_run _ _ _ _ _ (class_Camera_run h)). cbv beta. fold n.
    erewrite sbind_run
      by (apply new_camera_run; heap_fields; apply lookup_insert_eq).
    cbv beta. heap_fields.
    erewrite sbind_run
      by (apply new_camera_run; heap_fields; apply lookup_insert_eq).
    cbv beta. heap_fields. reflexivity.
  - heap_fields.
    split; [lia |].
    split; [rewrite lookup_insert_ne by lia; apply lookup_insert_eq |].
    split; [apply lookup_insert_eq |].
    repeat split; apply lookup_insert_eq.
Qed.

(** ** From image coordinates to space and back *)

(** Expansion along a row: against its own cofactors a row gives the
    determinant, against the cofactors of another row it gives 0. *)
Lemma laplace_rows (M : mat4) (k i : nat) :
  (k < 4)%nat -> (i < 4)%nat ->
  entry M k 0 * cofactor M i 0 + entry M k 1 * cofactor M i 1
  + entry M k 2 * cofactor M i 2 + entry M k 3 * cofactor M i 3
  = if (k =? i)%nat then det4 M else 0.
Proof.
  intros Hk Hi.
  destruct M as [[a0 a1 a2 a3] [b0 b1 b2 b3] [c0 c1 c2 c3] [d0 d1 d2 d3]].
  each_index k i;
    unfold det4, cofactor, minor, det3, skip, entry; simpl; ring.
Qed.

Lemma vecmat_twice (M : mat4) (C : nat -> nat -> R) (v : vec4) :
  let S := fun k i : nat =>
             entry M k 0 * C i 0%nat + entry M k 1 * C i 1%nat
             + entry M k 2 * C i 2%nat + entry M k 3 * C i 3%nat in
  let T := fun k : nat =>
             h0 v * S k 0%nat + h1 v * S k 1%nat + h2 v * S k 2%nat + h3 v * S k 3%nat in
  vecmat (vecmat v (transpose (mk4 (fun i j => C j i)))) (transpose M)
  = V4 (T 0%nat) (T 1%nat) (T 2%nat) (T 3%nat).
Proof.
  destruct M as [[a0 a1 a2 a3] [b0 b1 b2 b3] [c0 c1 c2 c3] [d0 d1 d2 d3]].
  destruct v as [x y z w].
  unfold vecmat, transpose, mk4, dot4, col, entry; simpl.
  apply vec4_eq; ring.
Qed.

(** The matrix undoes its adjugate up to the determinant. *)
Lemma adjugate_vecmat_r (M : mat4) (v : vec4) :
  vecmat (vecmat v (transpose (mk4 (fun i j => cofactor M j i)))) (transpose M)
  = scale4 (det4 M) v.
Proof.
  rewrite (vecmat_twice M (cofactor M) v). cbv beta zeta.
  rewrite !laplace_rows by lia. cbn [Nat.eqb].
  destruct v as [x y z w]. unfold scale4; cbn [h0 h1 h2 h3].
  apply vec4_eq; ring.
Qed.

Lemma inverse_det (M Mi : mat4) : inverse M = Ok Mi -> det4 M <> 0.
Proof.
  unfold inverse. destruct (Req_dec_T (det4 M) 0) as [E | N]; [discriminate | intros _; exact N].
Qed.

Lemma inverse_vecmat_r (M Mi : mat4) (v : vec4) :
  inverse M = Ok Mi ->
  vecmat (vecmat v (transpose Mi)) (transpose M) = v.
Proof.
  intros Hi. pose proof (inverse_det M Mi Hi) as Hd.
  rewrite (inverse_ok M Hd) in Hi. injection Hi as <-.
  pose proof (adjugate_vecmat_r M v) as Hadj.
  assert (Hs : vecmat v (transpose (mk4 (fun i j => cofactor M j i / det4 M))) =
               scale4 (/ det4 M) (vecmat v (transpose (mk4 (fun i j => cofactor M j i))))).
  { destruct v as [x y z w].
    unfold vecmat, transpose, mk4, dot4, col, entry, scale4; simpl.
    apply vec4_eq; field; assumption. }
  rewrite Hs, vecmat_scale, Hadj.
  destruct v as [x y z w]. unfold scale4; simpl.
  apply vec4_eq; field; assumption.
Qed.

Lemma rescale_half (u : vec3) :
  vadd (vmul (vsub (vmul u (splat 2)) (splat 1)) (splat (1 / 2))) (splat (1 / 2)) = u.
Proof.
  destruct u as [x y z]. unfold vsub, vmul, vadd, splat; simpl. apply vec3_eq; field.
Qed.

(** One image point through [unproject] and [project] with [pixels=False]. *)
Lemma point_back_trip (M Mi : mat4) (u : vec3) :
  inverse M = Ok Mi ->
  h3 (vecmat (cart2homo (vsub (vmul u (splat 2)) (splat 1)) 1) (transpose Mi)) <> 0 ->
  vadd (vmul (homo2cart
                (vecmat (cart2homo
                           (homo2cart
                              (vecmat (cart2homo (vsub (vmul u (splat 2)) (splat 1)) 1)
                                      (transpose Mi))) 1)
                        (transpose M)))
             (splat (1 / 2))) (splat (1 / 2)) = u.
Proof.
  intros Hi Hw.
  rewrite (cart2homo_homo2cart _ Hw), vecmat_scale, (inverse_vecmat_r M Mi _ Hi).
  rewrite homo2cart_scale.
  - rewrite homo2cart_cart2homo. apply rescale_half.
  - apply Rinv_neq_0_compat. exact Hw.
  - simpl. lra.
Qed.

Lemma sample_inverse :
  inverse (matmul (M4 (V4 1 0 0 0) (V4 0 1 0 0) (V4 0 0 2 (-3)) (V4 0 0 1 0))
                  (view_matrix (extrinsic sample_camera)))
  = Ok (M4 (V4 1 0 0 0) (V4 0 1 0 0) (V4 0 0 0 1) (V4 0 0 (- (1 / 3)) (2 / 3))).
Proof.
  simpl extrinsic. rewrite view_matrix_default, matmul_identity_r.
  assert (Hd : det4 (M4 (V4 1 0 0 0) (V4 0 1 0 0) (V4 0 0 2 (-3)) (V4 0 0 1 0)) = 3).
  { unfold det4, cofactor, minor, det3, skip, entry; simpl. ring. }
  rewrite inverse_ok by (rewrite Hd; lra).
  rewrite Hd. f_equal.
  unfold mk4, cofactor, minor, det3, skip, entry; simpl.
  f_equal; apply vec4_eq; field.
Qed.

(** X15: the round trip the other way, with [pixels=False] on both calls:
    whenever the combined matrix can be inverted, [unproject] returns some
    points [P] and [project(P)] gives back the image coordinates it was
    given, for every coordinate set whose unprojected homogeneous component
    is not zero. *)
Theorem project_unproject_normalized :
  forall (c : Camera) (UVd : Tensor) (Pm Minv : mat4),
    projection_matrix (intrinsic c) = Ok Pm ->
    inverse (matmul Pm (view_matrix (extrinsic c))) = Ok Minv ->
    Forall (fun u => h3 (vecmat (cart2homo (vsub (vmul u (splat 2)) (splat 1)) 1)
                                (transpose Minv)) <> 0) UVd ->
    exists P : Tensor,
      unproject c UVd false = Ok P /\ project c P false = Ok UVd.
Proof.
  intros c UVd Pm Minv HPm Hinv Hw.
  unfold unproject, project. simpl rbind. rewrite HPm. simpl rbind.
  rewrite Hinv. simpl rbind.
  eexists. split; [reflexivity |].
  f_equal. rewrite !map_map.
  induction Hw as [| u U Hu _ IH]; simpl.
  - reflexivity.
  - f_equal; [| exact IH].
    apply (point_back_trip _ _ u Hinv Hu).
Qed.

(** X15 at the sample camera and the image point (1/2, 1/2, 3/4). *)
Lemma project_unproject_normalized_witness :
  exists P : Tensor,
    unproject sample_camera [V3 (1 / 2) (1 / 2) (3 / 4)] false = Ok P /\
    project sample_camera P false = Ok [V3 (1 / 2) (1 / 2) (3 / 4)].
Proof.
  apply (project_unproject_normalized sample_camera [V3 (1 / 2) (1 / 2) (3 / 4)] _ _
           sample_projection_matrix sample_inverse).
  constructor; [| constructor].
  unfold vecmat, transpose, mk4, dot4, col, entry, cart2homo, vsub, vmul, splat; simpl.
  lra.
Defined.
